(** * Lightning routing core (electrum/lnrouter.py): a shallow embedding

    Part I embeds the source file top to bottom:
    - [validate_features] (the feature-bit validator),
    - the row classes of [ChannelDB] and the operations of the graph store,
    - [RouteEdge] with its fee arithmetic and sanity predicates,
    - [LNPathFinder] (reverse Dijkstra with compound fees).
    Part II states and proves the properties.

    Python values are modelled as follows: [int] is [Z]; [bytes] is a list
    of 8-bit characters and [str] is [string]; a dict or an SQL table with
    a primary key is a [gmap] on that key; a set is a [gset]; a [float] of
    the path finder is an IEEE 754 binary64 number; an exception is the
    [Raise] outcome of the [result] type. *)

From Stdlib Require Import ZArith QArith List String Ascii Lia Bool.
From Stdlib Require Import DecimalString.
From Stdlib Require SpecFloat.
From stdpp Require Import base option gmap strings list fin_maps.

Local Open Scope Z_scope.

(** ** Outcomes of a call: a value or a raised exception *)

Inductive exn : Type :=
| UnknownEvenFeatureBits
| NotFoundChanAnnouncementForUpdate
| AttributeError (attribute : string)
| AssertionError
| MultipleResultsFound
| NoResultFound
| ValueError
| TypeError
| KeyError
| OverflowError
| ZeroDivisionError
| Exception_ (msg : string).

(** A call returns a value, raises, or (for the loops that are run with a
    bound on their iterations) uses up its fuel before finishing. *)
Inductive result (A : Type) : Type :=
| Return (a : A)
| Raise (e : exn)
| OutOfFuel.
Arguments Return {A} a.
Arguments Raise {A} e.
Arguments OutOfFuel {A}.

Global Instance result_ret : MRet result := fun A a => Return a.
Global Instance result_bind : MBind result := fun A B k r =>
  match r with
  | Return a => k a
  | Raise e => Raise e
  | OutOfFuel => OutOfFuel
  end.

(** ** Bytes and text *)

Abbreviation bytes := (list ascii).

Definition ord_byte (b : ascii) : Z := Z.of_N (N_of_ascii b).
Definition byte_of (n : Z) : ascii := ascii_of_N (Z.to_N n).

(** [buf[0:n], buf[n:]]: a slice past the end is just shorter. *)
Definition read (n : nat) (buf : bytes) : bytes * bytes := (take n buf, drop n buf).

(** [ord(data)]: defined for a [bytes] object of length one. *)
Definition ord (data : bytes) : result Z :=
  match data with
  | [b] => Return (ord_byte b)
  | _ => Raise TypeError
  end.

(** [int.from_bytes(data, 'big')]; the empty string gives 0. *)
Definition int_from_bytes (data : bytes) : Z :=
  foldl (fun acc b => acc * 256 + ord_byte b) 0 data.

Definition hex_digit (n : Z) : ascii :=
  nth (Z.to_nat n) (list_ascii_of_string "0123456789abcdef") "0"%char.

(** [binascii.hexlify(data)] *)
Definition hexlify (data : bytes) : bytes :=
  flat_map (fun b => [hex_digit (ord_byte b / 16); hex_digit (ord_byte b mod 16)]) data.

(** [data.hex()] and [bh2u] *)
Definition hex (data : bytes) : string := string_of_list_ascii (hexlify data).

Definition hex_value (c : ascii) : option Z :=
  let n := ord_byte c in
  if (48 <=? n) && (n <=? 57) then Some (n - 48)
  else if (97 <=? n) && (n <=? 102) then Some (n - 87)
  else if (65 <=? n) && (n <=? 70) then Some (n - 55)
  else None.

Fixpoint fromhex_chars (l : list ascii) : option bytes :=
  match l with
  | [] => Some []
  | h :: l' =>
      match l' with
      | [] => None
      | lo :: rest =>
          hv ← hex_value h; lv ← hex_value lo; r ← fromhex_chars rest;
          Some (byte_of (16 * hv + lv) :: r)
      end
  end.

(** [bytes.fromhex(s)] and [bfh]: [ValueError] on a string that is not an
    even number of hexadecimal digits (the ids the store keeps come from
    [hex] and hold no blanks). *)
Definition bfh (s : string) : result bytes :=
  match fromhex_chars (list_ascii_of_string s) with
  | Some b => Return b
  | None => Raise ValueError
  end.

(** ['%d' % x] *)
Definition decimal (x : Z) : string := NilZero.string_of_uint (N.to_uint (Z.to_N x)).

(** [base64.b32encode]: five bits per character, most significant bit
    first, the last group filled with zero bits, then ['='] up to a multiple
    of eight characters. *)
Definition bits_of_byte (b : ascii) : list bool :=
  let 'Ascii b0 b1 b2 b3 b4 b5 b6 b7 := b in [b7; b6; b5; b4; b3; b2; b1; b0].

Definition b32_char (b4 b3 b2 b1 b0 : bool) : ascii :=
  nth (Nat.b2n b4 * 16 + Nat.b2n b3 * 8 + Nat.b2n b2 * 4 + Nat.b2n b1 * 2 + Nat.b2n b0)%nat
      (list_ascii_of_string "ABCDEFGHIJKLMNOPQRSTUVWXYZ234567") "="%char.

Fixpoint b32_quintets (bits : list bool) : list ascii :=
  match bits with
  | b4 :: b3 :: b2 :: b1 :: b0 :: rest => b32_char b4 b3 b2 b1 b0 :: b32_quintets rest
  | [b4; b3; b2; b1] => [b32_char b4 b3 b2 b1 false]
  | [b4; b3; b2] => [b32_char b4 b3 b2 false false]
  | [b4; b3] => [b32_char b4 b3 false false false]
  | [b4] => [b32_char b4 false false false false]
  | [] => []
  end.

Definition b32encode (data : bytes) : bytes :=
  let chars := b32_quintets (flat_map bits_of_byte data) in
  chars ++ replicate ((8 - length chars mod 8) mod 8)%nat "="%char.

(** [s.lower()] on ASCII text *)
Definition lower_char (c : ascii) : ascii :=
  let n := ord_byte c in
  if (65 <=? n) && (n <=? 90) then byte_of (n + 32) else c.

Definition lower (s : bytes) : string := string_of_list_ascii (map lower_char s).

(** Python's order on [bytes]: lexicographic on the byte values. *)
Fixpoint bytes_compare (a b : bytes) : comparison :=
  match a, b with
  | [], [] => Eq
  | [], _ :: _ => Lt
  | _ :: _, [] => Gt
  | x :: a', y :: b' =>
      match ord_byte x ?= ord_byte y with
      | Eq => bytes_compare a' b'
      | c => c
      end
  end.

(** ** 4.A  Feature-bit validator *)

Module Features.

(** Modelled from the spec: [util.list_enabled_bits] is imported by the
    source but is not part of it.  The spec speaks of "each set bit b" of a
    non-negative bitfield; the positions are produced from the least
    significant bit upwards, which is the order in which the loop of
    [validate_features] meets them.  A non-positive argument has no set bit
    here. *)
Fixpoint enabled_bits_from (i : Z) (p : positive) : list Z :=
  match p with
  | xH => [i]
  | xO q => enabled_bits_from (i + 1) q
  | xI q => i :: enabled_bits_from (i + 1) q
  end.

Definition list_enabled_bits (x : Z) : list Z :=
  match x with
  | Zpos p => enabled_bits_from 0 p
  | _ => []
  end.

Section Validate.

(** [lnutil.LN_GLOBAL_FEATURES_KNOWN_SET] is a constant of another module:
    a set of powers of two.  It is a parameter of the validator. *)
Variable LN_GLOBAL_FEATURES_KNOWN_SET : gset Z.

(** The [for fbit in enabled_features] loop: the first offending bit raises. *)
Fixpoint validate_bits (enabled_features : list Z) : result unit :=
  match enabled_features with
  | [] => Return tt
  | fbit :: rest =>
      if bool_decide (Z.shiftl 1 fbit ∉ LN_GLOBAL_FEATURES_KNOWN_SET)
         && (fbit mod 2 =? 0)
      then Raise UnknownEvenFeatureBits
      else validate_bits rest
  end.

Definition validate_features (features : Z) : result unit :=
  let enabled_features := list_enabled_bits features in
  validate_bits enabled_features.

(** An offending bit: set, even, and its power of two unknown. *)
Definition unknown_even_bit (features b : Z) : Prop :=
  Z.testbit features b = true /\ Z.even b = true
  /\ Z.shiftl 1 b ∉ LN_GLOBAL_FEATURES_KNOWN_SET.

End Validate.
End Features.

(** ** 4.E  The graph store: [ChannelDB] and its row classes *)

Definition FLAG_DISABLE : Z := Z.shiftl 1 1.
Definition FLAG_DIRECTION : Z := Z.shiftl 1 0.
Definition NUM_MAX_RECENT_PEERS : Z := 20.

(** The payload of a [channel_update] as the wire decoder hands it over:
    every field is a [bytes] value, [htlc_maximum_msat] is optional. *)
Module ChannelUpdate.
Record t : Type := mk {
  short_channel_id : bytes;
  chain_hash : bytes;
  channel_flags : bytes;
  cltv_expiry_delta : bytes;
  htlc_minimum_msat : bytes;
  htlc_maximum_msat : option bytes;
  fee_base_msat : bytes;
  fee_proportional_millionths : bytes;
  timestamp : bytes
}.
End ChannelUpdate.

(** [datetime.datetime.fromtimestamp(t)] for an integer [t]: the naive date
    and time that the clocks of the process's time zone show at POSIX time
    [t].  A naive datetime is kept as the number of seconds from 1970-01-01
    00:00:00 to it on the calendar, so that naive datetimes compare as these
    numbers, and [fromtimestamp t] is [t] moved by the zone's offset from
    UTC at time [t].  The zone belongs to the platform: its offset is a
    parameter.  The timestamp of a message has four bytes, which is within
    the years that a [datetime] can hold. *)
Definition fromtimestamp (utcoffset : Z -> Z) (t : Z) : Z := t + utcoffset t.

(** Table [policy], primary key [(start_node, short_channel_id)].  An object
    built by [from_msg] carries neither key column.  The [DateTime] column
    holds a naive datetime. *)
Module Policy.
Record t : Type := mk {
  start_node : option string;
  short_channel_id : option string;
  cltv_expiry_delta : Z;
  htlc_minimum_msat : Z;
  htlc_maximum_msat : option Z;
  fee_base_msat : Z;
  fee_proportional_millionths : Z;
  channel_flags : Z;
  timestamp : Z
}.

Definition from_msg (utcoffset : Z -> Z) (channel_update_payload : ChannelUpdate.t) : t :=
  let htlc_maximum_msat := ChannelUpdate.htlc_maximum_msat channel_update_payload in
  {| start_node := None;
     short_channel_id := None;
     cltv_expiry_delta := int_from_bytes (ChannelUpdate.cltv_expiry_delta channel_update_payload);
     htlc_minimum_msat := int_from_bytes (ChannelUpdate.htlc_minimum_msat channel_update_payload);
     htlc_maximum_msat :=
       match htlc_maximum_msat with
       | Some (b :: m) => Some (int_from_bytes (b :: m))
       | _ => None
       end;
     fee_base_msat := int_from_bytes (ChannelUpdate.fee_base_msat channel_update_payload);
     fee_proportional_millionths :=
       int_from_bytes (ChannelUpdate.fee_proportional_millionths channel_update_payload);
     channel_flags := int_from_bytes (ChannelUpdate.channel_flags channel_update_payload);
     timestamp :=
       fromtimestamp utcoffset
         (int_from_bytes (ChannelUpdate.timestamp channel_update_payload)) |}.

(** The [disabled] property: an [int], true when it is not zero. *)
Definition disabled (self2 : t) : Z := Z.land (channel_flags self2) FLAG_DISABLE.
End Policy.

(** Table [channel_info], primary key [short_channel_id]; ids are stored as
    hexadecimal text. *)
Module ChannelInfoInDB.
Record t : Type := mk {
  short_channel_id : string;
  node1_id : string;
  node2_id : string;
  capacity_sat : option Z;
  msg_payload_hex : string
}.
End ChannelInfoInDB.

(** Table [node_info], primary key [node_id]. *)
Module NodeInfoInDB.
Record t : Type := mk {
  node_id : string;
  features : Z;
  timestamp : Z;
  alias : string
}.

Section ParseAddresses.

(** [util.is_ip_address] is imported by the source and is not part of it. *)
Variable is_ip_address : string -> bool.

(** [[read(n) for i in range(k)]]: [k] successive slices of [n] bytes. *)
Fixpoint read_groups (k n : nat) (buf : bytes) : list bytes * bytes :=
  match k with
  | O => ([], buf)
  | S k' =>
      let '(data, buf) := read n buf in
      let '(rest, buf) := read_groups k' n buf in
      (data :: rest, buf)
  end.

(** What one pass through the body of [while buf:] does. *)
Inductive iteration : Type :=
| Next (buf : bytes) (addresses : list (string * Z))
| Break.

(** The body of the loop, entered with a non-empty [buf]. *)
Definition parse_record (buf : bytes) (addresses : list (string * Z)) : result iteration :=
  let '(data, buf) := read 1 buf in
  atype ← ord data;
  if atype =? 0 then
    Return (Next buf addresses)
  else if atype =? 1 then
    let '(data, buf) := read 4 buf in
    let ipv4_addr := String.concat "." (map (fun x => decimal (ord_byte x)) data) in
    let '(data, buf) := read 2 buf in
    let port := int_from_bytes data in
    if is_ip_address ipv4_addr && negb (port =? 0)
    then Return (Next buf (addresses ++ [(ipv4_addr, port)]))
    else Return (Next buf addresses)
  else if atype =? 2 then
    let '(groups, buf) := read_groups 8 2 buf in
    let ipv6_addr := String.concat ":" (map (fun g => string_of_list_ascii (hexlify g)) groups) in
    let '(data, buf) := read 2 buf in
    let port := int_from_bytes data in
    if is_ip_address ipv6_addr && negb (port =? 0)
    then Return (Next buf (addresses ++ [(ipv6_addr, port)]))
    else Return (Next buf addresses)
  else if atype =? 3 then
    let '(data, buf) := read 10 buf in
    let host := lower (b32encode data ++ list_ascii_of_string ".onion") in
    let '(data, buf) := read 2 buf in
    let port := int_from_bytes data in
    Return (Next buf (addresses ++ [(host, port)]))
  else if atype =? 4 then
    let '(data, buf) := read 35 buf in
    let host := lower (b32encode data ++ list_ascii_of_string ".onion") in
    let '(data, buf) := read 2 buf in
    let port := int_from_bytes data in
    Return (Next buf (addresses ++ [(host, port)]))
  else
    Return Break.

(** [while buf: ...], at most [fuel] passes. *)
Fixpoint parse_loop (fuel : nat) (buf : bytes) (addresses : list (string * Z))
  : result (list (string * Z)) :=
  match buf with
  | [] => Return addresses
  | _ :: _ =>
      match fuel with
      | O => OutOfFuel
      | S fuel' =>
          it ← parse_record buf addresses;
          match it with
          | Next buf addresses => parse_loop fuel' buf addresses
          | Break => Return addresses
          end
      end
  end.

(** The loop is given as many passes as the field has bytes. *)
Definition parse_addresses_field (addresses_field : bytes) : result (list (string * Z)) :=
  parse_loop (length addresses_field) addresses_field [].

End ParseAddresses.
End NodeInfoInDB.

(** [lnutil.LNPeerAddr] *)
Module LNPeerAddr.
Record t : Type := mk {
  host : string;
  port : Z;
  pubkey : bytes
}.
End LNPeerAddr.

Module ChannelDB.

(** The state of a [ChannelDB]: the four tables of its session, the
    in-memory map of private channel updates and the verifier's staging
    set.  Table [address] has the primary key [(node_id, host, port)] and
    the column [last_connected_date]. *)
Record t : Type := mk {
  channel_info : gmap string ChannelInfoInDB.t;
  policy : gmap (string * string) Policy.t;
  node_info : gmap string NodeInfoInDB.t;
  address : gmap (string * string * Z) Z;
  _channel_updates_for_private_channels : gmap (bytes * bytes) ChannelUpdate.t;
  ca_verifier : gmap bytes ChannelInfoInDB.t
}.

(** [Base.metadata.drop_all(); create_all()]: a fresh store has empty tables. *)
Definition init : t :=
  {| channel_info := ∅; policy := ∅; node_info := ∅; address := ∅;
     _channel_updates_for_private_channels := ∅; ca_verifier := ∅ |}.

Definition set_policy (db : t) (p : gmap (string * string) Policy.t) : t :=
  {| channel_info := channel_info db; policy := p; node_info := node_info db;
     address := address db;
     _channel_updates_for_private_channels := _channel_updates_for_private_channels db;
     ca_verifier := ca_verifier db |}.

Definition set_node_info (db : t) (n : gmap string NodeInfoInDB.t) : t :=
  {| channel_info := channel_info db; policy := policy db; node_info := n;
     address := address db;
     _channel_updates_for_private_channels := _channel_updates_for_private_channels db;
     ca_verifier := ca_verifier db |}.

Definition set_address (db : t) (a : gmap (string * string * Z) Z) : t :=
  {| channel_info := channel_info db; policy := policy db; node_info := node_info db;
     address := a;
     _channel_updates_for_private_channels := _channel_updates_for_private_channels db;
     ca_verifier := ca_verifier db |}.

(** [Query.one_or_none()] *)
Definition one_or_none {A : Type} (rows : list A) : result (option A) :=
  match rows with
  | [] => Return None
  | [row] => Return (Some row)
  | _ => Raise MultipleResultsFound
  end.

(** [Query.one()] *)
Definition one {A : Type} (rows : list A) : result A :=
  match rows with
  | [] => Raise NoResultFound
  | [row] => Return row
  | _ => Raise MultipleResultsFound
  end.

(** Modelled from the spec: [LNChannelVerifier.get_pending_channel_info] is
    in a module that is not part of the source; the spec gives it as
    [lookup_pending(scid) -> Channel?] on the staging set. *)
Definition get_pending_channel_info (db : t) (short_channel_id : bytes)
  : option ChannelInfoInDB.t :=
  ca_verifier db !! short_channel_id.

(** Reading an attribute that the object does not have.  A [ChannelDB]
    has the attributes assigned in [__init__] ([network], [path], [lock],
    [_channel_updates_for_private_channels], [ca_verifier],
    [ChannelInfoInDB], [Policy], [NodeInfoInDB], [AddressInDB], [sess]) and
    the methods of its class, which has no base class. *)
Definition no_attribute {A : Type} (attribute : string) : result A :=
  Raise (AttributeError attribute).

(** [self.get_channel_info(short_channel_id)]: the source calls it on the
    store, and so does the path finder; the class defines no such method,
    so reading the attribute raises before any call is made. *)
Definition get_channel_info (db : t) (short_channel_id : bytes)
  : result (option ChannelInfoInDB.t) :=
  no_attribute "get_channel_info".

(** [self.channel_db.get_channels_for_node(node_id)]: called by the path
    finder; the class defines no such method either. *)
Definition get_channels_for_node (db : t) (node_id : bytes) : result (list bytes) :=
  no_attribute "get_channels_for_node".

(** An [Integer] column of SQLite holds a signed integer of 64 bits; the
    driver raises [OverflowError] on a Python [int] outside that range. *)
Definition sqlite_integer (x : Z) : bool := (- 2 ^ 63 <=? x) && (x <? 2 ^ 63).

Section Gossip.

(** [lnchannelverifier.verify_sig_for_channel_update] and
    [constants.net.rev_genesis_bytes()] belong to other modules. *)
Variable verify_sig_for_channel_update : ChannelUpdate.t -> bytes -> bool.
Variable rev_genesis_bytes : bytes.
(** The offset from UTC of the zone the process runs in, see [fromtimestamp]. *)
Variable utcoffset : Z -> Z.

(** [ChannelInfoInDB.on_channel_update]: the row method; it reaches the
    session of the enclosing store through the closure.  The outcome comes
    with the store as the call leaves it.

    The attribute assignments after the two guards are made on
    [old_policy]: when the query found no row, [old_policy] is [None] and
    the first assignment raises [AttributeError].  With a row, the
    [commit()] writes the changed columns; an integer that SQLite cannot
    hold makes it raise [OverflowError] and the row of the table stays as
    it was (the session is then left with the failed change, which the
    calls that follow would meet again: that is not modelled). *)
Definition ChannelInfoInDB_on_channel_update (db : t) (self2 : ChannelInfoInDB.t)
    (msg_payload : ChannelUpdate.t) (trusted : bool) : result unit * t :=
  if negb (bool_decide (ChannelInfoInDB.short_channel_id self2
                        = hex (ChannelUpdate.short_channel_id msg_payload)))
  then (Raise AssertionError, db) else
  let flags := int_from_bytes (ChannelUpdate.channel_flags msg_payload) in
  let direction := Z.land flags FLAG_DIRECTION in
  let new_policy := Policy.from_msg utcoffset msg_payload in
  let node_id := if direction =? 0 then ChannelInfoInDB.node1_id self2
                 else ChannelInfoInDB.node2_id self2 in
  let old_policy := policy db !! (node_id, ChannelInfoInDB.short_channel_id self2) in
  let stale := match old_policy with
               | Some old => Policy.timestamp new_policy <=? Policy.timestamp old
               | None => false
               end in
  if stale then (Return tt, db) else
  let checked : result bool :=
    if trusted then Return true
    else node ← bfh node_id; Return (verify_sig_for_channel_update msg_payload node) in
  match checked with
  | Raise e => (Raise e, db)
  | OutOfFuel => (OutOfFuel, db)
  | Return false => (Return tt, db)
  | Return true =>
      match old_policy with
      | None => (no_attribute "cltv_expiry_delta", db)
      | Some old =>
          let updated :=
            {| Policy.start_node := Policy.start_node old;
               Policy.short_channel_id := Policy.short_channel_id old;
               Policy.cltv_expiry_delta := Policy.cltv_expiry_delta new_policy;
               Policy.htlc_minimum_msat := Policy.htlc_minimum_msat new_policy;
               Policy.htlc_maximum_msat := Policy.htlc_maximum_msat new_policy;
               Policy.fee_base_msat := Policy.fee_base_msat new_policy;
               Policy.fee_proportional_millionths :=
                 Policy.fee_proportional_millionths new_policy;
               Policy.channel_flags := Policy.channel_flags new_policy;
               Policy.timestamp := Policy.timestamp new_policy |} in
          if forallb sqlite_integer
               [Policy.cltv_expiry_delta updated; Policy.htlc_minimum_msat updated;
                default 0 (Policy.htlc_maximum_msat updated); Policy.fee_base_msat updated;
                Policy.fee_proportional_millionths updated; Policy.channel_flags updated]
          then
            (Return tt,
             set_policy db (<[(node_id, ChannelInfoInDB.short_channel_id self2) := updated]>
                              (policy db)))
          else (Raise OverflowError, db)
      end
  end.

(** [ChannelInfoInDB.get_policy_for_node].  The row is [self2]; the
    membership test reads [self.node1_id] and [self.node2_id], where [self]
    is the enclosing [ChannelDB], which has no such attributes.  Both
    queries filter on [start_node] alone and end in [one()]. *)
Definition ChannelInfoInDB_get_policy_for_node (db : t) (self2 : ChannelInfoInDB.t)
    (node : bytes) : result (option Policy.t) :=
  self_node1_id ← no_attribute (A := string) "node1_id";
  self_node2_id ← no_attribute (A := string) "node2_id";
  if negb (bool_decide (hex node ∈ [self_node1_id; self_node2_id]))
  then Raise (Exception_ "the given node is not a party in this channel") else
  let rows := filter (fun row : string * string * Policy.t => row.1.1 = hex node)
                     (map_to_list (policy db)) in
  n1 ← one rows;
  (* a row object is true, [n2] is never computed *)
  Return (Some n1.2).

(** [chan_for_id] reads [self.ChanInfoInDB]; the attribute of the store is
    named [ChannelInfoInDB]. *)
Definition chan_for_id (db : t) (short_channel_id : bytes)
  : result (list ChannelInfoInDB.t) :=
  table ← no_attribute (A := gmap string ChannelInfoInDB.t) "ChanInfoInDB";
  Return (filter (fun row => ChannelInfoInDB.short_channel_id row = hex short_channel_id)
                 (snd <$> map_to_list table)).

(** [self.print_error]: the class defines no such method. *)
Definition print_error (db : t) : result unit := no_attribute "print_error".

Definition on_channel_update (db : t) (msg_payload : ChannelUpdate.t) (trusted : bool)
  : result unit * t :=
  let short_channel_id := ChannelUpdate.short_channel_id msg_payload in
  if negb (bool_decide (rev_genesis_bytes = ChannelUpdate.chain_hash msg_payload))
  then (Return tt, db) else
  (* try finding channel in pending db *)
  let channel_info := get_pending_channel_info db short_channel_id in
  let located : result (option ChannelInfoInDB.t) :=
    match channel_info with
    | Some ci => Return (Some ci)
    | None =>
        (* try finding channel in verified db *)
        rows ← chan_for_id db short_channel_id; one_or_none rows
    end in
  match located with
  | Raise e => (Raise e, db)
  | OutOfFuel => (OutOfFuel, db)
  | Return None =>
      match print_error db with
      | Return _ => (Raise NotFoundChanAnnouncementForUpdate, db)
      | Raise e => (Raise e, db)
      | OutOfFuel => (OutOfFuel, db)
      end
  | Return (Some ci) => ChannelInfoInDB_on_channel_update db ci msg_payload trusted
  end.

(** [get_routing_policy_for_channel] *)
Definition get_routing_policy_for_channel (db : t) (start_node_id short_channel_id : bytes)
  : result (option Policy.t) :=
  match start_node_id, short_channel_id with
  | [], _ | _, [] => Return None
  | _, _ =>
      channel_info ← get_channel_info db short_channel_id;
      match channel_info with
      | Some ci => ChannelInfoInDB_get_policy_for_node db ci start_node_id
      | None =>
          let msg := _channel_updates_for_private_channels db
                       !! (start_node_id, short_channel_id) in
          match msg with
          | None => Return None
          | Some m => Return (Some (Policy.from_msg utcoffset m))  (* won't be written to DB *)
          end
      end
  end.

(** [add_channel_update_for_private_channel] *)
Definition add_channel_update_for_private_channel (db : t) (msg_payload : ChannelUpdate.t)
    (start_node_id : bytes) : t :=
  if negb (verify_sig_for_channel_update msg_payload start_node_id) then db
  else
    let short_channel_id := ChannelUpdate.short_channel_id msg_payload in
    {| channel_info := channel_info db; policy := policy db; node_info := node_info db;
       address := address db;
       _channel_updates_for_private_channels :=
         <[(start_node_id, short_channel_id) := msg_payload]>
           (_channel_updates_for_private_channels db);
       ca_verifier := ca_verifier db |}.

End Gossip.

(** [dummy_node]: the shell record of a node known only by its id.  The
    source passes the text ["00"] for the integer column [features]. *)
Definition dummy_node (now : Z) (pubkeyhex : string) : NodeInfoInDB.t :=
  {| NodeInfoInDB.node_id := pubkeyhex;
     NodeInfoInDB.features := 0;
     NodeInfoInDB.timestamp := now;
     NodeInfoInDB.alias := hex (list_ascii_of_string "DUMMY ALIAS") |}.

(** [add_recent_peer]; [now] is what [datetime.datetime.now()] returns
    during the call. *)
Definition add_recent_peer (now : Z) (db : t) (peer : LNPeerAddr.t) : result unit * t :=
  let node_id := hex (LNPeerAddr.pubkey peer) in
  let rows := filter (fun row : string * string * Z * Z => row.1.1.1 = node_id)
                     (map_to_list (address db)) in
  match one_or_none rows with
  | Raise e => (Raise e, db)
  | OutOfFuel => (OutOfFuel, db)
  | Return None =>
      let db :=
        match node_info db !! node_id with
        | Some _ => db
        | None => set_node_info db (<[node_id := dummy_node now node_id]> (node_info db))
        end in
      (Return tt,
       set_address db (<[(node_id, LNPeerAddr.host peer, LNPeerAddr.port peer) := now]>
                         (address db)))
  | Return (Some addr) =>
      (Return tt, set_address db (<[addr.1 := now]> (address db)))
  end.

End ChannelDB.

(** ** 4.F  Route edges and their sanity *)

(** [a / b] on two [int]s is a [float]; it is kept as the exact quotient.
    Below 2^53 the rounding of the quotient does not change the outcome of
    a comparison with an [int]. *)
Definition true_div (a b : Z) : Q := (inject_Z a / inject_Z b)%Q.

(** [x > q] for an [int] and a [float] *)
Definition int_gt_float (x : Z) (q : Q) : bool := negb (Qle_bool (inject_Z x) q).

Module RouteEdge.
(** "if you travel through short_channel_id, you will reach node_id" *)
Record t : Type := mk {
  node_id : bytes;
  short_channel_id : bytes;
  fee_base_msat : Z;
  fee_proportional_millionths : Z;
  cltv_expiry_delta : Z
}.

Definition fee_for_edge (self : t) (amount_msat : Z) : Z :=
  fee_base_msat self
  + (amount_msat * fee_proportional_millionths self / 1000000).

Definition from_channel_policy (channel_policy : Policy.t)
    (short_channel_id end_node : bytes) : t :=
  mk end_node short_channel_id
     (Policy.fee_base_msat channel_policy)
     (Policy.fee_proportional_millionths channel_policy)
     (Policy.cltv_expiry_delta channel_policy).

Definition is_sane_to_use (self : t) (amount_msat : Z) : bool :=
  (* cltv cannot be more than 2 weeks *)
  if cltv_expiry_delta self >? 14 * 144 then false else
  let total_fee := fee_for_edge self amount_msat in
  (* fees below 50 sat are fine *)
  if total_fee >? 50000 then
    (* fee cannot be higher than amt *)
    if total_fee >? amount_msat then false
    (* fee cannot be higher than 5000 sat *)
    else if total_fee >? 5000000 then false
    (* unless amt is tiny, fee cannot be more than 10% *)
    else if (amount_msat >? 1000000) && int_gt_float total_fee (true_div amount_msat 10)
    then false
    else true
  else true.
End RouteEdge.

Section RouteSanity.

(** [lnutil.NUM_MAX_EDGES_IN_PAYMENT_PATH] is a constant of another module. *)
Variable NUM_MAX_EDGES_IN_PAYMENT_PATH : Z.

(** The [for route_edge in reversed(route[1:])] loop of
    [is_route_sane_to_use] on the edges still to visit: [None] when an edge
    is refused, else the amount and the cltv accumulated. *)
Fixpoint accumulate_route (edges : list RouteEdge.t) (amt cltv : Z) : option (Z * Z) :=
  match edges with
  | [] => Some (amt, cltv)
  | route_edge :: rest =>
      if negb (RouteEdge.is_sane_to_use route_edge amt) then None
      else accumulate_route rest (amt + RouteEdge.fee_for_edge route_edge amt)
                            (cltv + RouteEdge.cltv_expiry_delta route_edge)
  end.

Definition is_route_sane_to_use (route : list RouteEdge.t)
    (invoice_amount_msat min_final_cltv_expiry : Z) : bool :=
  if Z.of_nat (length route) >? NUM_MAX_EDGES_IN_PAYMENT_PATH then false else
  match accumulate_route (rev (drop 1 route)) invoice_amount_msat min_final_cltv_expiry with
  | None => false
  | Some (amt, cltv) =>
      let total_fee := amt - invoice_amount_msat in
      (* cltv cannot be more than 2 months *)
      if cltv >? 60 * 144 then false
      else if total_fee >? 50000 then
        if total_fee >? invoice_amount_msat then false
        else if total_fee >? 5000000 then false
        else if (invoice_amount_msat >? 1000000)
                && int_gt_float total_fee (true_div invoice_amount_msat 10)
        then false
        else true
      else true
  end.

End RouteSanity.

(** ** 4.G  The path finder *)

(** A Python [float] is an IEEE 754 binary64 number: 53 bits of mantissa,
    infinities at exponent 1024; its operations round to the nearest
    number, ties to the even one. *)
Abbreviation pyfloat := SpecFloat.spec_float.

(** [float('inf')] *)
Definition inf : pyfloat := SpecFloat.S754_infinity false.

(** [float(x)], as the arithmetic does to an [int] operand that meets a
    [float]: the nearest number, [OverflowError] when it is out of range. *)
Definition float_of_int (x : Z) : result pyfloat :=
  match SpecFloat.binary_normalize 53 1024 x 0 false with
  | SpecFloat.S754_infinity _ => Raise OverflowError
  | f => Return f
  end.

(** [a / b] on two [int]s: the quotient, rounded once. *)
Definition int_truediv (a b : Z) : result pyfloat :=
  if b =? 0 then Raise ZeroDivisionError else
  match a with
  | 0 => Return (SpecFloat.S754_zero (b <? 0))
  | _ =>
      match SpecFloat.SFdiv 53 1024
              (SpecFloat.S754_finite (a <? 0) (Z.to_pos (Z.abs a)) 0)
              (SpecFloat.S754_finite (b <? 0) (Z.to_pos (Z.abs b)) 0) with
      | SpecFloat.S754_infinity _ => Raise OverflowError
      | q => Return q
      end
  end.

(** [x / b] for a [float] and an [int] that is not zero *)
Definition float_div_int (x : pyfloat) (b : Z) : result pyfloat :=
  y ← float_of_int b;
  Return (SpecFloat.SFdiv 53 1024 x y).

Definition float_add (a b : pyfloat) : pyfloat := SpecFloat.SFadd 53 1024 a b.

(** [a + b] for an [int] and a [float] *)
Definition int_add_float (a : Z) (b : pyfloat) : result pyfloat :=
  x ← float_of_int a;
  Return (float_add x b).

(** [a + b] for a [float] and an [int] *)
Definition float_add_int (a : pyfloat) (b : Z) : result pyfloat :=
  y ← float_of_int b;
  Return (float_add a y).

Definition float_ltb (a b : pyfloat) : bool := SpecFloat.SFltb a b.

Definition float_eqb (a b : pyfloat) : bool := SpecFloat.SFeqb a b.

(** [lnchan.Channel], as far as the finder looks at one of our own
    channels. *)
Module Channel.
Record t : Type := mk {
  short_channel_id : bytes;
  can_pay : Z -> bool
}.
End Channel.

Module LNPathFinder.

(** What the finder asks of [self.channel_db] and of the rows it hands
    out.  The source's [ChannelDB] answers through [of_ChannelDB] below. *)
Record ChannelGraph : Type := {
  get_channels_for_node : bytes -> result (list bytes);
  get_channel_info : bytes -> result (option ChannelInfoInDB.t);
  get_policy_for_node : ChannelInfoInDB.t -> bytes -> result (option Policy.t)
}.

Definition of_ChannelDB (db : ChannelDB.t) : ChannelGraph :=
  {| get_channels_for_node n := ChannelDB.get_channels_for_node db n;
     get_channel_info s := ChannelDB.get_channel_info db s;
     get_policy_for_node ci n := ChannelDB.ChannelInfoInDB_get_policy_for_node db ci n |}.

(** The finder object: [__init__] stores the store and an empty blacklist. *)
Record t : Type := mk {
  channel_db : ChannelGraph;
  blacklist : gset bytes
}.

Definition __init__ (channel_db : ChannelGraph) : t :=
  {| channel_db := channel_db; blacklist := ∅ |}.

(** A method of the finder: from the object before the call to an outcome
    and the object after it. *)
Definition M (A : Type) : Type := t -> result A * t.

Global Instance M_ret : MRet M := fun A a self => (Return a, self).
Global Instance M_bind : MBind M := fun A B k m self =>
  match m self with
  | (Return a, self') => k a self'
  | (Raise e, self') => (Raise e, self')
  | (OutOfFuel, self') => (OutOfFuel, self')
  end.

(** Reading [self] *)
Definition get_self : M t := fun self => (Return self, self).
(** The outcome of a call that does not involve [self] *)
Definition lift {A : Type} (r : result A) : M A := fun self => (r, self).

(** The three local variables of [find_path_for_payment] that the search
    works on.  [nodes_to_explore] is the priority queue, kept in ascending
    order; a node absent from [distance_from_start] is at infinity.  The
    distance of the payee is the [int] 0, which is kept as the [float] 0.0:
    the two are equal and add alike. *)
Record search : Type := {
  distance_from_start : gmap bytes pyfloat;
  prev_node : gmap bytes (bytes * bytes);
  nodes_to_explore : list (pyfloat * Z * bytes)
}.

Definition distance (st : search) (node : bytes) : pyfloat :=
  default inf (distance_from_start st !! node).

(** Python's order on the tuples [(distance, amount, node)]: the first
    components that are not equal decide. *)
Definition entry_ltb (x y : pyfloat * Z * bytes) : bool :=
  if negb (float_eqb x.1.1 y.1.1) then float_ltb x.1.1 y.1.1
  else if negb (x.1.2 =? y.1.2) then x.1.2 <? y.1.2
  else match bytes_compare x.2 y.2 with Lt => true | _ => false end.

(** [PriorityQueue.put]; [get] takes the head. *)
Fixpoint put (x : pyfloat * Z * bytes) (queue : list (pyfloat * Z * bytes))
  : list (pyfloat * Z * bytes) :=
  match queue with
  | [] => [x]
  | y :: queue' => if entry_ltb x y then x :: y :: queue' else y :: put x queue'
  end.

(** [_edge_cost]: (heuristic cost, fee for the edge in msat) *)
Definition _edge_cost (short_channel_id start_node end_node : bytes)
    (payment_amt_msat : Z) (ignore_costs : bool) : M (pyfloat * Z) :=
  self ← get_self;
  channel_info ← lift (get_channel_info (channel_db self) short_channel_id);
  match channel_info with
  | None => mret (inf, 0)
  | Some channel_info =>
      channel_policy ← lift (get_policy_for_node (channel_db self) channel_info start_node);
      match channel_policy with
      | None => mret (inf, 0)
      | Some channel_policy =>
          if negb (Policy.disabled channel_policy =? 0) then mret (inf, 0) else
          let route_edge :=
            RouteEdge.from_channel_policy channel_policy short_channel_id end_node in
          if payment_amt_msat <? Policy.htlc_minimum_msat channel_policy
          then mret (inf, 0)  (* payment amount too little *)
          else if match ChannelInfoInDB.capacity_sat channel_info with
                  | Some capacity_sat => payment_amt_msat / 1000 >? capacity_sat
                  | None => false
                  end
          then mret (inf, 0)  (* payment amount too large *)
          else if match Policy.htlc_maximum_msat channel_policy with
                  | Some htlc_maximum_msat => payment_amt_msat >? htlc_maximum_msat
                  | None => false
                  end
          then mret (inf, 0)  (* payment amount too large *)
          else if negb (RouteEdge.is_sane_to_use route_edge payment_amt_msat)
          then mret (inf, 0)  (* thanks but no thanks *)
          else
            let fee_msat := if negb ignore_costs
                            then RouteEdge.fee_for_edge route_edge payment_amt_msat
                            else 0 in
            (* paying 10 more satoshis ~ waiting one more block *)
            fee_cost ← lift (q ← int_truediv fee_msat 1000; float_div_int q 10);
            let cltv_cost := if negb ignore_costs
                             then RouteEdge.cltv_expiry_delta route_edge
                             else 0 in
            cost ← lift (d ← int_add_float cltv_cost fee_cost; float_add_int d 1);
            mret (cost, fee_msat)
      end
  end.

Section Search.

Variable nodeA : bytes.
Variable my_channels : gmap bytes Channel.t.

(** The nested function [inspect_edge], with the variables it reads from
    the enclosing call as arguments and the search state it updates as
    result. *)
Definition inspect_edge (edge_channel_id edge_startnode edge_endnode : bytes)
    (amount_msat : Z) (st : search) : M search :=
  proceed ←
    match my_channels !! edge_channel_id with
    | Some chan =>
        if bool_decide (edge_startnode = nodeA)
        then (* payment outgoing, on our channel *)
          mret (Channel.can_pay chan amount_msat)
        else (* payment incoming, on our channel *)
          if bool_decide (edge_endnode = nodeA) then mret true
          else lift (Raise AssertionError)
    | None => mret true
    end;
  if negb proceed then mret st else
  cost ← _edge_cost edge_channel_id edge_startnode edge_endnode amount_msat
                    (bool_decide (edge_startnode = nodeA));
  let '(edge_cost, fee_for_edge_msat) := cost in
  let alt_dist_to_neighbour := float_add (distance st edge_endnode) edge_cost in
  if float_ltb alt_dist_to_neighbour (distance st edge_startnode) then
    let amount_to_forward_msat := amount_msat + fee_for_edge_msat in
    mret {| distance_from_start :=
              <[edge_startnode := alt_dist_to_neighbour]> (distance_from_start st);
            prev_node := <[edge_startnode := (edge_endnode, edge_channel_id)]> (prev_node st);
            nodes_to_explore :=
              put (alt_dist_to_neighbour, amount_to_forward_msat, edge_startnode)
                  (nodes_to_explore st) |}
  else mret st.

(** [for edge_channel_id in self.channel_db.get_channels_for_node(edge_endnode)] *)
Fixpoint explore_channels (edge_endnode : bytes) (amount_msat : Z)
    (channels : list bytes) (st : search) : M search :=
  match channels with
  | [] => mret st
  | edge_channel_id :: channels' =>
      self ← get_self;
      if bool_decide (edge_channel_id ∈ blacklist self)
      then explore_channels edge_endnode amount_msat channels' st
      else
        channel_info ← lift (get_channel_info (channel_db self) edge_channel_id);
        match channel_info with
        | None => lift (ChannelDB.no_attribute "node1_id")
        | Some channel_info =>
            node1 ← lift (bfh (ChannelInfoInDB.node1_id channel_info));
            edge_startnode ←
              (if bool_decide (node1 = edge_endnode)
               then lift (bfh (ChannelInfoInDB.node2_id channel_info))
               else mret node1);
            st ← inspect_edge edge_channel_id edge_startnode edge_endnode amount_msat st;
            explore_channels edge_endnode amount_msat channels' st
        end
  end.

(** How one pass through [while nodes_to_explore.qsize() > 0] ends. *)
Inductive pass : Type :=
| Again (st : search)
| Reached (amount_msat : Z) (st : search)   (* [break]: the payer was taken from the queue *)
| Exhausted.                                (* the [else] of the loop: no path found *)

Definition main_loop_pass (st : search) : M pass :=
  match nodes_to_explore st with
  | [] => mret Exhausted
  | (dist_to_edge_endnode, amount_msat, edge_endnode) :: queue =>
      let st := {| distance_from_start := distance_from_start st;
                   prev_node := prev_node st;
                   nodes_to_explore := queue |} in
      if bool_decide (edge_endnode = nodeA) then mret (Reached amount_msat st)
      else if negb (float_eqb dist_to_edge_endnode (distance st edge_endnode))
      then mret (Again st)   (* a duplicate left in the queue *)
      else
        self ← get_self;
        channels ← lift (get_channels_for_node (channel_db self) edge_endnode);
        st ← explore_channels edge_endnode amount_msat channels st;
        mret (Again st)
  end.

(** The main loop of the search, at most [fuel] passes. *)
Fixpoint main_loop (fuel : nat) (st : search) : M (option (Z * search)) :=
  match fuel with
  | O => lift OutOfFuel
  | S fuel' =>
      p ← main_loop_pass st;
      match p with
      | Again st => main_loop fuel' st
      | Reached amount_msat st => mret (Some (amount_msat, st))
      | Exhausted => mret None
      end
  end.

End Search.

(** backtrack from search_end (nodeA) to search_start (nodeB) *)
Fixpoint backtrack (fuel : nat) (nodeB : bytes) (prev_node : gmap bytes (bytes * bytes))
    (edge_startnode : bytes) (path : list (bytes * bytes)) : result (list (bytes * bytes)) :=
  if bool_decide (edge_startnode = nodeB) then Return path else
  match fuel with
  | O => OutOfFuel
  | S fuel' =>
      match prev_node !! edge_startnode with
      | None => Raise KeyError
      | Some (edge_endnode, edge_taken) =>
          backtrack fuel' nodeB prev_node edge_endnode (path ++ [(edge_endnode, edge_taken)])
      end
  end.

(** The start of the search: [nodeB] at distance 0, alone in the queue. *)
Definition start (nodeB : bytes) (invoice_amount_msat : Z) : search :=
  {| distance_from_start := {[ nodeB := SpecFloat.S754_zero false ]};
     prev_node := ∅;
     nodes_to_explore := [(SpecFloat.S754_zero false, invoice_amount_msat, nodeB)] |}.

(** [find_path_for_payment]: [None] when no path is found, else the list
    of [(node_id, short_channel_id)]; each of its two loops makes at most
    [fuel] passes. *)
Definition find_path_for_payment (fuel : nat) (nodeA nodeB : bytes)
    (invoice_amount_msat : Z) (my_channels : list Channel.t)
  : M (option (list (bytes * bytes))) :=
  let my_channels :=
    foldl (fun d chan => <[Channel.short_channel_id chan := chan]> d) ∅ my_channels in
  found ← main_loop nodeA my_channels fuel (start nodeB invoice_amount_msat);
  match found with
  | None => mret None  (* no path found *)
  | Some (_, st) =>
      path ← lift (backtrack fuel nodeB (prev_node st) nodeA []);
      mret (Some path)
  end.

End LNPathFinder.

(** ** Scenario S1: a linear route *)

Module S1.

Definition A : bytes := list_ascii_of_string "A".
Definition X : bytes := list_ascii_of_string "X".
Definition B : bytes := list_ascii_of_string "B".

Definition scid (n : Z) : bytes := replicate 7 (byte_of 0) ++ [byte_of n].

(** Endpoints are stored in ascending order of their hexadecimal ids. *)
Definition channel_1 : ChannelInfoInDB.t :=
  {| ChannelInfoInDB.short_channel_id := hex (scid 1);
     ChannelInfoInDB.node1_id := hex A;
     ChannelInfoInDB.node2_id := hex X;
     ChannelInfoInDB.capacity_sat := None;
     ChannelInfoInDB.msg_payload_hex := "" |}.

Definition channel_2 : ChannelInfoInDB.t :=
  {| ChannelInfoInDB.short_channel_id := hex (scid 2);
     ChannelInfoInDB.node1_id := hex B;
     ChannelInfoInDB.node2_id := hex X;
     ChannelInfoInDB.capacity_sat := None;
     ChannelInfoInDB.msg_payload_hex := "" |}.

(** Policy of [start] on channel [n]: proportional fee 0, cltv 40,
    htlc_min 0, no htlc_max, not disabled. *)
Definition policy_of (start : bytes) (n : Z) (direction fee_base : Z) : Policy.t :=
  {| Policy.start_node := Some (hex start);
     Policy.short_channel_id := Some (hex (scid n));
     Policy.cltv_expiry_delta := 40;
     Policy.htlc_minimum_msat := 0;
     Policy.htlc_maximum_msat := None;
     Policy.fee_base_msat := fee_base;
     Policy.fee_proportional_millionths := 0;
     Policy.channel_flags := direction;
     Policy.timestamp := 1 |}.

Definition db : ChannelDB.t :=
  {| ChannelDB.channel_info := {[ hex (scid 1) := channel_1; hex (scid 2) := channel_2 ]};
     ChannelDB.policy :=
       {[ (hex A, hex (scid 1)) := policy_of A 1 0 1000;
          (hex X, hex (scid 2)) := policy_of X 2 1 500 ]};
     ChannelDB.node_info := ∅;
     ChannelDB.address := ∅;
     ChannelDB._channel_updates_for_private_channels := ∅;
     ChannelDB.ca_verifier := ∅ |}.

Definition invoice_amount_msat : Z := 1000000.

End S1.


(** ** Inputs used in the examples *)

Module Fixtures.

(** [n.to_bytes(len, 'big')] for [0 <= n < 256 ^ len] *)
Fixpoint int_to_bytes (len : nat) (n : Z) : bytes :=
  match len with
  | O => []
  | S len' => int_to_bytes len' (n / 256) ++ [byte_of (n mod 256)]
  end.

Definition genesis : bytes := replicate 32 (byte_of 0).

(** A [channel_update] for channel [n] with the given flags, timestamp and
    base fee; proportional fee 0, cltv 40, htlc_min 0, no htlc_max. *)
Definition update (chain_hash : bytes) (n flags timestamp fee_base : Z) : ChannelUpdate.t :=
  {| ChannelUpdate.short_channel_id := S1.scid n;
     ChannelUpdate.chain_hash := chain_hash;
     ChannelUpdate.channel_flags := int_to_bytes 1 flags;
     ChannelUpdate.cltv_expiry_delta := int_to_bytes 2 40;
     ChannelUpdate.htlc_minimum_msat := int_to_bytes 8 0;
     ChannelUpdate.htlc_maximum_msat := None;
     ChannelUpdate.fee_base_msat := int_to_bytes 4 fee_base;
     ChannelUpdate.fee_proportional_millionths := int_to_bytes 4 0;
     ChannelUpdate.timestamp := int_to_bytes 4 timestamp |}.

(** A store that has received the announcement of channel 2 (between [B]
    and [X]) and no update yet: the row is in the session and in the
    verifier's staging set, the policy table is empty. *)
Definition announced : ChannelDB.t :=
  {| ChannelDB.channel_info := {[ hex (S1.scid 2) := S1.channel_2 ]};
     ChannelDB.policy := ∅;
     ChannelDB.node_info := ∅;
     ChannelDB.address := ∅;
     ChannelDB._channel_updates_for_private_channels := ∅;
     ChannelDB.ca_verifier := {[ S1.scid 2 := S1.channel_2 ]} |}.

(** Peer number [i]: its own key and host, connecting at time [i]. *)
Definition peer (i : Z) : Z * LNPeerAddr.t :=
  (i, {| LNPeerAddr.host := String.append "10.0.0." (decimal i);
         LNPeerAddr.port := 9735;
         LNPeerAddr.pubkey := [byte_of 2; byte_of i] |}).

Definition peers (n : nat) : list (Z * LNPeerAddr.t) :=
  map (fun i => peer (Z.of_nat i)) (seq 1 n).

(** [add_recent_peer] called for each peer in turn, at the peer's time. *)
Definition add_recent_peers (calls : list (Z * LNPeerAddr.t)) (db : ChannelDB.t)
  : ChannelDB.t :=
  foldl (fun db call => (ChannelDB.add_recent_peer call.1 db call.2).2) db calls.

(** A fresh store after [add_channel_update_for_private_channel] accepted an
    update of [A] for the unannounced channel 5. *)
Definition with_private_update : ChannelDB.t :=
  ChannelDB.add_channel_update_for_private_channel (fun _ _ => true) ChannelDB.init
    (update genesis 5 0 10 7) S1.A.

(** A route of [n] free edges *)
Definition free_route (n : nat) : list RouteEdge.t :=
  replicate n (RouteEdge.mk S1.X (S1.scid 1) 0 0 0).

End Fixtures.

(** ** Predicates used in the statements *)

(** What the spec lists as the reasons for refusing an edge. *)
Definition edge_refused (e : RouteEdge.t) (amount_msat : Z) : Prop :=
  let total_fee := RouteEdge.fee_for_edge e amount_msat in
  RouteEdge.cltv_expiry_delta e > 14 * 144
  \/ (total_fee > 50000 /\ total_fee > amount_msat)
  \/ total_fee > 5000000
  \/ (amount_msat > 1000000 /\ (true_div amount_msat 10 < inject_Z total_fee)%Q).

(** The host text of an onion record *)
Definition onion_host (data : bytes) : string :=
  lower (b32encode data ++ list_ascii_of_string ".onion").

(** What the decoder does guarantee about ports: an entry with port 0 was
    decoded from an onion record. *)
Definition port_checked (addresses : list (string * Z)) : Prop :=
  forall host port, In (host, port) addresses -> port = 0 ->
                    exists data, host = onion_host data.

(** The node whose policy an update addresses: the direction bit selects
    one of the two endpoints of the channel. *)
Definition addressed_node (self2 : ChannelInfoInDB.t) (msg : ChannelUpdate.t) : string :=
  if Z.land (int_from_bytes (ChannelUpdate.channel_flags msg)) FLAG_DIRECTION =? 0
  then ChannelInfoInDB.node1_id self2 else ChannelInfoInDB.node2_id self2.

Definition policy_key (self2 : ChannelInfoInDB.t) (msg : ChannelUpdate.t) : string * string :=
  (addressed_node self2 msg, ChannelInfoInDB.short_channel_id self2).

(** [on_channel_update] called for each message in turn, with its
    [trusted] flag; what is kept is the store. *)
Definition process_updates (verify : ChannelUpdate.t -> bytes -> bool) (genesis : bytes)
    (utcoffset : Z -> Z) (calls : list (ChannelUpdate.t * bool)) (db : ChannelDB.t)
  : ChannelDB.t :=
  foldl (fun db call =>
           (ChannelDB.on_channel_update verify genesis utcoffset db call.1 call.2).2)
        db calls.

(** A method leaves the finder object as it found it, whatever its
    outcome. *)
Definition preserves {A : Type} (m : LNPathFinder.M A) : Prop :=
  forall self, (m self).2 = self.

(** ** The rest of the source: queries of the store, routes *)

(** [ChannelDB.nodes_get] *)
Definition ChannelDB_nodes_get (db : ChannelDB.t) (node_id : bytes) : option NodeInfoInDB.t :=
  ChannelDB.node_info db !! hex node_id.

(** [ChannelDB.get_last_good_address]: the rows of the node, newest first,
    then [one_or_none()]. *)
Definition ChannelDB_get_last_good_address (db : ChannelDB.t) (node_id : bytes)
  : result (option LNPeerAddr.t) :=
  let rows := filter (fun row : string * string * Z * Z => row.1.1.1 = hex node_id)
                     (map_to_list (ChannelDB.address db)) in
  adr_db ← ChannelDB.one_or_none rows;
  match adr_db with
  | None => Return None
  | Some adr_db =>
      pubkey ← bfh adr_db.1.1.1;
      Return (Some (LNPeerAddr.mk adr_db.1.1.2 adr_db.1.2 pubkey))
  end.

Section CreateRoute.

(** [self.channel_db.get_routing_policy_for_channel] *)
Variable get_routing_policy_for_channel : bytes -> bytes -> result (option Policy.t).

(** The [for node_id, short_channel_id in path] loop of
    [create_route_from_path], with [route] and [prev_node_id] as they stand
    before the pass. *)
Fixpoint extend_route (path : list (bytes * bytes)) (prev_node_id : bytes)
    (route : list RouteEdge.t) : result (list RouteEdge.t) :=
  match path with
  | [] => Return route
  | (node_id, short_channel_id) :: path' =>
      channel_policy ← get_routing_policy_for_channel prev_node_id short_channel_id;
      match channel_policy with
      | None =>
          Raise (Exception_ (String.append "cannot find channel policy for short_channel_id: "
                                           (hex short_channel_id)))
      | Some channel_policy =>
          extend_route path' node_id
            (route ++ [RouteEdge.from_channel_policy channel_policy short_channel_id node_id])
      end
  end.

(** [LNPathFinder.create_route_from_path]; [path] is [None] when the search
    found nothing. *)
Definition create_route_from_path (path : option (list (bytes * bytes)))
    (from_node_id : bytes) : result (list RouteEdge.t) :=
  match path with
  | None => Raise (Exception_ "cannot create route from None path")
  | Some path => extend_route path from_node_id []
  end.

End CreateRoute.

(** ** Predicates on the address table and on routes *)

(** No node has two rows in table [address]. *)
Definition one_address_per_node (db : ChannelDB.t) : Prop :=
  forall key1 key2 : string * string * Z,
    is_Some (ChannelDB.address db !! key1) -> is_Some (ChannelDB.address db !! key2) ->
    key1.1.1 = key2.1.1 -> key1 = key2.

(** Every row of table [address] belongs to a node of table [node_info]. *)
Definition addresses_have_nodes (db : ChannelDB.t) : Prop :=
  forall key : string * string * Z,
    is_Some (ChannelDB.address db !! key) -> is_Some (ChannelDB.node_info db !! key.1.1).

(** The amount that arrives at the head of [edges] when [amt] is to leave
    their tail end: each edge adds its fee for the amount it forwards. *)
Definition compounded (edges : list RouteEdge.t) (amt : Z) : Z :=
  foldl (fun a e => a + RouteEdge.fee_for_edge e a) amt edges.

(** An outcome with an entry put in front of a returned list. *)
Definition prepend {A : Type} (x : A) (r : result (list A)) : result (list A) :=
  match r with
  | Return l => Return (x :: l)
  | Raise e => Raise e
  | OutOfFuel => OutOfFuel
  end.

(** The host text of an IPv4 record *)
Definition ipv4_host (a b c d : ascii) : string :=
  String.concat "." (map (fun x => decimal (ord_byte x)) [a; b; c; d]).

(** ** Inputs used in the examples of routes and of the address table *)

Module Examples.

(** The route of S1 *)
Definition route : list RouteEdge.t :=
  [RouteEdge.from_channel_policy (S1.policy_of S1.A 1 0 1000) (S1.scid 1) S1.X;
   RouteEdge.from_channel_policy (S1.policy_of S1.X 2 1 500) (S1.scid 2) S1.B].

(** A store that knows peer 1, seen at time 1, and its shell node *)
Definition one_peer : ChannelDB.t :=
  {| ChannelDB.channel_info := ∅;
     ChannelDB.policy := ∅;
     ChannelDB.node_info :=
       {[ hex (LNPeerAddr.pubkey (Fixtures.peer 1).2)
          := ChannelDB.dummy_node 1 (hex (LNPeerAddr.pubkey (Fixtures.peer 1).2)) ]};
     ChannelDB.address :=
       {[ (hex (LNPeerAddr.pubkey (Fixtures.peer 1).2), "10.0.0.1"%string, 9735) := 1 ]};
     ChannelDB._channel_updates_for_private_channels := ∅;
     ChannelDB.ca_verifier := ∅ |}.

(** Peer 1 again, now at another host and port *)
Definition moved_peer : LNPeerAddr.t :=
  {| LNPeerAddr.host := "10.9.9.9";
     LNPeerAddr.port := 1;
     LNPeerAddr.pubkey := LNPeerAddr.pubkey (Fixtures.peer 1).2 |}.

(** An edge that charges 1000 msat and 100 millionths *)
Definition paid_edge : RouteEdge.t := RouteEdge.mk S1.X (S1.scid 1) 1000 100 40.

End Examples.


(** * Part II: properties *)

(** ** The feature-bit validator *)

Section FeaturesFacts.

Variable KNOWN : gset Z.

Lemma enabled_bits_from_spec p : forall i b,
  In b (Features.enabled_bits_from i p) <-> i <= b /\ Z.testbit (Zpos p) (b - i) = true.
Proof.
  induction p as [q IH | q IH | ]; intros i b; simpl.
  - rewrite IH. split.
    + intros [<- | [Hle Hb]].
      * split; [lia |]. replace (i - i) with 0 by lia. reflexivity.
      * split; [lia |].
        replace (b - i) with (Z.succ (b - (i + 1))) by lia.
        change (Z.pos q~1) with (2 * Z.pos q + 1).
        rewrite Z.testbit_odd_succ by lia. exact Hb.
    + intros [Hle Hb].
      destruct (Z.eq_dec i b) as [-> | Hne]; [now left | right].
      split; [lia |].
      replace (b - i) with (Z.succ (b - (i + 1))) in Hb by lia.
      change (Z.pos q~1) with (2 * Z.pos q + 1) in Hb.
      rewrite Z.testbit_odd_succ in Hb by lia. exact Hb.
  - rewrite IH. split.
    + intros [Hle Hb]. split; [lia |].
      replace (b - i) with (Z.succ (b - (i + 1))) by lia.
      change (Z.pos q~0) with (2 * Z.pos q).
      rewrite Z.testbit_even_succ by lia. exact Hb.
    + intros [Hle Hb].
      destruct (Z.eq_dec i b) as [-> | Hne].
      * replace (b - b) with 0 in Hb by lia. discriminate Hb.
      * split; [lia |].
        replace (b - i) with (Z.succ (b - (i + 1))) in Hb by lia.
        change (Z.pos q~0) with (2 * Z.pos q) in Hb.
        rewrite Z.testbit_even_succ in Hb by lia. exact Hb.
  - split.
    + intros [<- | []]. split; [lia |]. now replace (i - i) with 0 by lia.
    + intros [Hle Hb].
      destruct (Z.eq_dec i b) as [-> | Hne]; [now left |].
      exfalso. destruct (b - i) eqn:E; try lia; simpl in Hb.
      destruct p; discriminate Hb.
Qed.

Lemma list_enabled_bits_spec features b :
  0 <= features ->
  In b (Features.list_enabled_bits features) <-> Z.testbit features b = true.
Proof.
  intros Hnn. destruct features as [| p | p]; simpl; [| | lia].
  - rewrite Z.testbit_0_l. split; [tauto | discriminate].
  - rewrite enabled_bits_from_spec, Z.sub_0_r. split; [tauto |].
    intros Hb. split; [| exact Hb].
    destruct (Z.leb_spec 0 b) as [H | H]; [exact H |].
    rewrite Z.testbit_neg_r in Hb by lia. discriminate Hb.
Qed.

Lemma even_mod2 b : (b mod 2 =? 0) = Z.even b.
Proof.
  rewrite Zeven_mod. reflexivity.
Qed.

Lemma validate_bits_raises l :
  Features.validate_bits KNOWN l = Raise UnknownEvenFeatureBits <->
  exists b, In b l /\ Z.even b = true /\ Z.shiftl 1 b ∉ KNOWN.
Proof.
  induction l as [| fbit rest IH]; simpl.
  - split; [discriminate | intros (b & [] & _)].
  - rewrite even_mod2.
    destruct (bool_decide (Z.shiftl 1 fbit ∉ KNOWN)) eqn:Hk;
      [apply bool_decide_eq_true in Hk | apply bool_decide_eq_false in Hk];
      destruct (Z.even fbit) eqn:He; simpl.
    + split; [| reflexivity]. intros _. exists fbit. auto.
    + rewrite IH. split.
      * intros (b & Hin & Hb). exists b. auto.
      * intros (b & [-> | Hin] & Hev & Hb); [congruence |]. exists b. auto.
    + rewrite IH. split.
      * intros (b & Hin & Hb). exists b. auto.
      * intros (b & [-> | Hin] & Hev & Hb); [contradiction |]. exists b. auto.
    + rewrite IH. split.
      * intros (b & Hin & Hb). exists b. auto.
      * intros (b & [-> | Hin] & Hev & Hb); [contradiction |]. exists b. auto.
Qed.

Lemma validate_bits_total l :
  Features.validate_bits KNOWN l = Return tt
  \/ Features.validate_bits KNOWN l = Raise UnknownEvenFeatureBits.
Proof.
  induction l as [| fbit rest IH]; simpl; [now left |].
  destruct (_ && _); [now right | exact IH].
Qed.

(** C6.  For a non-negative feature bitfield, [validate_features] raises
    [UnknownEvenFeatureBits] if and only if some set bit [b] is even and
    [1 << b] is not in the known set; it raises nothing else, and a
    bitfield whose unknown set bits are all odd passes. *)
Theorem validate_features_unknown_even (features : Z) :
  0 <= features ->
  (Features.validate_features KNOWN features = Raise UnknownEvenFeatureBits
   <-> exists b, Features.unknown_even_bit KNOWN features b)
  /\ ((forall b, Z.testbit features b = true -> Z.shiftl 1 b ∉ KNOWN -> Z.odd b = true)
      -> Features.validate_features KNOWN features = Return tt).
Proof.
  intros Hnn. unfold Features.validate_features, Features.unknown_even_bit.
  assert (Hiff : Features.validate_bits KNOWN (Features.list_enabled_bits features)
                 = Raise UnknownEvenFeatureBits
                 <-> exists b, Z.testbit features b = true /\ Z.even b = true
                               /\ Z.shiftl 1 b ∉ KNOWN).
  { rewrite validate_bits_raises. split; intros (b & Hb & Hrest); exists b;
      (split; [apply (list_enabled_bits_spec features b Hnn); exact Hb | exact Hrest]). }
  split; [exact Hiff |].
  intros Hodd.
  destruct (validate_bits_total (Features.list_enabled_bits features)) as [H | H];
    [exact H | exfalso].
  apply Hiff in H. destruct H as (b & Hset & Hev & Hunk).
  specialize (Hodd b Hset Hunk). rewrite <- Z.negb_even, Hev in Hodd. discriminate Hodd.
Qed.

End FeaturesFacts.

(** The bitfield 5 (bits 0 and 2) against an empty known set. *)
Lemma validate_features_unknown_even_witness :
  (Features.validate_features ∅ 5 = Raise UnknownEvenFeatureBits
   <-> exists b, Features.unknown_even_bit ∅ 5 b)
  /\ ((forall b, Z.testbit 5 b = true -> Z.shiftl 1 b ∉ (∅ : gset Z) -> Z.odd b = true)
      -> Features.validate_features ∅ 5 = Return tt).
Proof.
  apply (validate_features_unknown_even ∅ 5). lia.
Defined.

(** Bit 6 alone is refused when unknown, accepted when known; bit 7 is
    optional. *)
Example validate_features_bit6 :
  Features.validate_features ∅ 64 = Raise UnknownEvenFeatureBits
  /\ Features.validate_features {[ 64 ]} 64 = Return tt
  /\ Features.validate_features ∅ 128 = Return tt.
Proof. repeat split; vm_compute; reflexivity. Qed.

(** ** Route edges *)

Lemma int_gt_float_tenth (fee amt : Z) :
  int_gt_float fee (true_div amt 10) = true <-> amt < 10 * fee.
Proof.
  unfold int_gt_float. rewrite negb_true_iff, <- not_true_iff_false, Qle_bool_iff.
  unfold Qle, true_div, Qdiv, Qmult, Qinv, inject_Z; simpl. lia.
Qed.

Lemma tenth_lt_fee (fee amt : Z) :
  (true_div amt 10 < inject_Z fee)%Q <-> amt < 10 * fee.
Proof.
  unfold Qlt, true_div, Qdiv, Qmult, Qinv, inject_Z; simpl. lia.
Qed.

(** C3.  [is_sane_to_use] returns [False] exactly when the cltv delta
    exceeds 14 * 144, or the fee exceeds 50_000 msat and the amount, or the
    fee exceeds 5_000_000 msat, or the amount exceeds 1_000_000 and the fee
    exceeds a tenth of it; in every other case it returns [True]. *)
Theorem is_sane_to_use_spec (e : RouteEdge.t) (amount_msat : Z) :
  (RouteEdge.is_sane_to_use e amount_msat = false <-> edge_refused e amount_msat)
  /\ (RouteEdge.is_sane_to_use e amount_msat = true <-> ~ edge_refused e amount_msat).
Proof.
  assert (H : RouteEdge.is_sane_to_use e amount_msat = false <-> edge_refused e amount_msat).
  { unfold RouteEdge.is_sane_to_use, edge_refused.
    set (fee := RouteEdge.fee_for_edge e amount_msat).
    rewrite tenth_lt_fee.
    destruct (Z.gtb_spec (RouteEdge.cltv_expiry_delta e) (14 * 144)) as [Hc | Hc];
      [split; [intros _; left; lia | reflexivity] |].
    destruct (Z.gtb_spec fee 50000) as [H50 | H50];
      [| split; [discriminate | intros [? | [? | [? | [? ?]]]]; lia]].
    destruct (Z.gtb_spec fee amount_msat) as [Ha | Ha];
      [split; [intros _; right; left; lia | reflexivity] |].
    destruct (Z.gtb_spec fee 5000000) as [H5 | H5];
      [split; [intros _; right; right; left; lia | reflexivity] |].
    destruct (Z.gtb_spec amount_msat 1000000) as [Hm | Hm]; simpl.
    - destruct (int_gt_float fee (true_div amount_msat 10)) eqn:Ht.
      + apply int_gt_float_tenth in Ht.
        split; [intros _; right; right; right; lia | reflexivity].
      + apply not_true_iff_false in Ht. rewrite int_gt_float_tenth in Ht.
        split; [discriminate | intros [? | [? | [? | [? ?]]]]; lia].
    - split; [discriminate | intros [? | [? | [? | [? ?]]]]; lia]. }
  split; [exact H |].
  rewrite <- H. destruct (RouteEdge.is_sane_to_use e amount_msat); split; congruence.
Qed.

(** ** The address-list decoder *)

Section ParseAddressesFacts.

Variable is_ip_address : string -> bool.

Lemma read_groups_length k n : forall buf groups buf',
  NodeInfoInDB.read_groups k n buf = (groups, buf') -> (length buf' <= length buf)%nat.
Proof.
  induction k as [| k IH]; intros buf groups buf'; simpl.
  - intros [= _ <-]. lia.
  - destruct (NodeInfoInDB.read_groups k n (drop n buf)) as [rest b] eqn:E.
    intros [= _ <-]. apply IH in E. rewrite length_drop in E. lia.
Qed.

(** Unfolds the loop body on a buffer that starts with the byte [b]. *)
Ltac enter_record b buf :=
  unfold NodeInfoInDB.parse_record, read;
  change (take 1 (b :: buf)) with [b]; change (drop 1 (b :: buf)) with (drop 0 buf);
  rewrite drop_0; unfold ord, mbind, result_bind.

(** A pass through the loop body that goes on leaves a shorter buffer:
    the type byte at least is consumed. *)
Lemma parse_record_consumes buf addresses buf' addresses' :
  NodeInfoInDB.parse_record is_ip_address buf addresses
    = Return (NodeInfoInDB.Next buf' addresses') ->
  (length buf' < length buf)%nat.
Proof.
  destruct buf as [| b buf]; [discriminate |]. enter_record b buf.
  destruct (NodeInfoInDB.read_groups 8 2 buf) as [groups buf6] eqn:E6.
  apply read_groups_length in E6.
  repeat match goal with
         | |- context [if ?c then _ else _] => destruct c
         end;
    intros H; inversion H; subst; simpl; rewrite ?length_drop; lia.
Qed.

(** Entered with a non-empty buffer, the loop body raises nothing. *)
Lemma parse_record_returns b buf addresses :
  exists it, NodeInfoInDB.parse_record is_ip_address (b :: buf) addresses = Return it.
Proof.
  enter_record b buf.
  destruct (NodeInfoInDB.read_groups 8 2 buf) as [groups buf6].
  repeat match goal with
         | |- context [if ?c then _ else _] => destruct c
         end; eexists; reflexivity.
Qed.

Lemma parse_loop_returns fuel : forall buf addresses,
  (length buf <= fuel)%nat ->
  exists result, NodeInfoInDB.parse_loop is_ip_address fuel buf addresses = Return result.
Proof.
  induction fuel as [| fuel IH]; intros [| b buf] addresses Hlen;
    try (eexists; reflexivity); simpl in Hlen; [lia |].
  cbn [NodeInfoInDB.parse_loop].
  destruct (parse_record_returns b buf addresses) as [it Hit]. rewrite Hit.
  unfold mbind, result_bind. destruct it as [buf' addresses' |]; [| eexists; reflexivity].
  apply IH. apply parse_record_consumes in Hit. simpl in Hit. lia.
Qed.

Lemma parse_loop_fuel fuel1 : forall fuel2 buf addresses,
  (length buf <= fuel1)%nat -> (length buf <= fuel2)%nat ->
  NodeInfoInDB.parse_loop is_ip_address fuel1 buf addresses
  = NodeInfoInDB.parse_loop is_ip_address fuel2 buf addresses.
Proof.
  induction fuel1 as [| fuel1 IH]; intros fuel2 [| b buf] addresses H1 H2;
    try (destruct fuel2; reflexivity); simpl in H1, H2; [lia |].
  destruct fuel2 as [| fuel2]; [lia |].
  cbn [NodeInfoInDB.parse_loop].
  destruct (NodeInfoInDB.parse_record is_ip_address (b :: buf) addresses)
    as [[buf' addresses' |] | e |] eqn:Hit; unfold mbind, result_bind; try reflexivity.
  apply parse_record_consumes in Hit. simpl in Hit. apply IH; lia.
Qed.

(** C10.  [parse_addresses_field] terminates on every input: a pass
    through the loop that goes on consumes at least one byte, so as many
    passes as the field has bytes always suffice, more passes change
    nothing, and the outcome is always a returned list. *)
Theorem parse_addresses_field_total :
  (forall buf addresses buf' addresses',
      NodeInfoInDB.parse_record is_ip_address buf addresses
        = Return (NodeInfoInDB.Next buf' addresses') ->
      (length buf' < length buf)%nat)
  /\ (forall addresses_field, exists addresses,
         NodeInfoInDB.parse_addresses_field is_ip_address addresses_field = Return addresses)
  /\ (forall addresses_field extra,
         NodeInfoInDB.parse_loop is_ip_address (length addresses_field + extra)
                                 addresses_field []
         = NodeInfoInDB.parse_addresses_field is_ip_address addresses_field).
Proof.
  split; [exact parse_record_consumes |]. split.
  - intros field. apply parse_loop_returns. lia.
  - intros field extra. apply parse_loop_fuel; lia.
Qed.

Lemma port_checked_app addresses host port :
  port_checked addresses ->
  (port = 0 -> exists data, host = onion_host data) ->
  port_checked (addresses ++ [(host, port)]).
Proof.
  intros Ha Hp h p Hin Hz. apply in_app_iff in Hin as [Hin | [[= <- <-] | []]].
  - exact (Ha h p Hin Hz).
  - exact (Hp Hz).
Qed.

Lemma parse_record_port_checked buf addresses buf' addresses' :
  port_checked addresses ->
  NodeInfoInDB.parse_record is_ip_address buf addresses
    = Return (NodeInfoInDB.Next buf' addresses') ->
  port_checked addresses'.
Proof.
  intros Ha. destruct buf as [| b buf]; [discriminate |]. enter_record b buf.
  destruct (NodeInfoInDB.read_groups 8 2 buf) as [groups buf6].
  destruct (ord_byte b =? 0); [intros [= _ <-]; exact Ha |].
  destruct (ord_byte b =? 1).
  { destruct (is_ip_address _ && negb (_ =? 0)) eqn:Hc; intros [= _ <-]; [| exact Ha].
    apply port_checked_app; [exact Ha |]. intros Hz.
    apply andb_true_iff in Hc as [_ Hc]. rewrite Hz in Hc. discriminate Hc. }
  destruct (ord_byte b =? 2).
  { destruct (is_ip_address _ && negb (_ =? 0)) eqn:Hc; intros [= _ <-]; [| exact Ha].
    apply port_checked_app; [exact Ha |]. intros Hz.
    apply andb_true_iff in Hc as [_ Hc]. rewrite Hz in Hc. discriminate Hc. }
  destruct (ord_byte b =? 3).
  { intros [= _ <-]. apply port_checked_app; [exact Ha |]. intros _. eexists; reflexivity. }
  destruct (ord_byte b =? 4).
  { intros [= _ <-]. apply port_checked_app; [exact Ha |]. intros _. eexists; reflexivity. }
  discriminate.
Qed.

Lemma parse_loop_port_checked fuel : forall buf addresses result,
  port_checked addresses ->
  NodeInfoInDB.parse_loop is_ip_address fuel buf addresses = Return result ->
  port_checked result.
Proof.
  induction fuel as [| fuel IH]; intros [| b buf] addresses result Ha;
    cbn [NodeInfoInDB.parse_loop]; try (intros [= <-]; exact Ha).
  destruct (NodeInfoInDB.parse_record is_ip_address (b :: buf) addresses)
    as [[buf' addresses' |] | e |] eqn:Hit; unfold mbind, result_bind; try discriminate.
  - apply IH. exact (parse_record_port_checked _ _ _ _ Ha Hit).
  - intros [= <-]. exact Ha.
Qed.

(** The address decoder drops the IPv4 and IPv6 records that decode with
    port 0: an entry of the result with port 0 comes from an onion record. *)
Theorem parse_addresses_field_port_zero_is_onion addresses_field addresses host :
  NodeInfoInDB.parse_addresses_field is_ip_address addresses_field = Return addresses ->
  In (host, 0) addresses ->
  exists data, host = onion_host data.
Proof.
  intros Hp Hin.
  apply (parse_loop_port_checked _ _ _ _ (fun _ _ (H : In _ []) => match H with end) Hp
           host 0 Hin eq_refl).
Qed.

(** C7, at the failing input: an onion v2 record (type 3, ten address
    bytes) whose port bytes are 00 00 is kept, with port 0. *)
Theorem parse_addresses_field_keeps_onion_port_zero :
  NodeInfoInDB.parse_addresses_field is_ip_address
    (byte_of 3 :: replicate 10 (byte_of 0) ++ [byte_of 0; byte_of 0])
  = Return [("aaaaaaaaaaaaaaaa.onion"%string, 0)].
Proof. vm_compute. reflexivity. Qed.

(** The same for onion v3 (type 4, thirty-five address bytes), and for a
    field cut off right after the type byte. *)
Example parse_addresses_field_onion_v3_and_truncated :
  (exists host, NodeInfoInDB.parse_addresses_field is_ip_address
                  (byte_of 4 :: replicate 35 (byte_of 0) ++ [byte_of 0; byte_of 0])
                = Return [(host, 0)])
  /\ NodeInfoInDB.parse_addresses_field is_ip_address [byte_of 3]
     = Return [(".onion"%string, 0)].
Proof. split; [eexists |]; vm_compute; reflexivity. Qed.

End ParseAddressesFacts.

(** An IPv4 record with a port is decoded, and dropped when its port is 0
    (here with a check that accepts every host text). *)
Example parse_addresses_field_ipv4 :
  NodeInfoInDB.parse_addresses_field (fun _ => true)
    (map byte_of [1; 127; 0; 0; 1; 35; 41; 1; 10; 0; 0; 7; 0; 0])
  = Return [("127.0.0.1"%string, 9001)].
Proof. vm_compute. reflexivity. Qed.

(** ** The graph store: channel updates *)

Section UpdateFacts.

Variable verify : ChannelUpdate.t -> bytes -> bool.
Variable genesis : bytes.
Variable utcoffset : Z -> Z.

Local Abbreviation row_update :=
  (ChannelDB.ChannelInfoInDB_on_channel_update verify utcoffset).
Local Abbreviation db_update := (ChannelDB.on_channel_update verify genesis utcoffset).
Local Abbreviation process := (process_updates verify genesis utcoffset).

(** The row method never adds a key to the policy table. *)
Lemma row_update_policy_dom db self2 msg trusted :
  dom (ChannelDB.policy (row_update db self2 msg trusted).2) = dom (ChannelDB.policy db).
Proof.
  unfold ChannelDB.ChannelInfoInDB_on_channel_update.
  destruct (negb _); [reflexivity |].
  fold (addressed_node self2 msg).
  destruct (ChannelDB.policy db !! _) as [old |] eqn:Hold.
  - apply elem_of_dom_2 in Hold.
    destruct (_ <=? _); [reflexivity |].
    destruct trusted; cbn [result_bind mbind].
    + destruct (forallb _ _); [| reflexivity]. cbn [snd ChannelDB.policy ChannelDB.set_policy].
      rewrite dom_insert_L. apply subseteq_union_1_L, singleton_subseteq_l, Hold.
    + destruct (bfh _) as [node | e |]; cbn [result_bind mbind]; try reflexivity.
      destruct (verify msg node); [| reflexivity].
      destruct (forallb _ _); [| reflexivity]. cbn [snd ChannelDB.policy ChannelDB.set_policy].
      rewrite dom_insert_L. apply subseteq_union_1_L, singleton_subseteq_l, Hold.
  - destruct trusted; [reflexivity |].
    destruct (bfh _) as [node | e |]; simpl; try reflexivity.
    destruct (verify msg node); reflexivity.
Qed.

Lemma db_update_policy_dom db msg trusted :
  dom (ChannelDB.policy (db_update db msg trusted).2) = dom (ChannelDB.policy db).
Proof.
  unfold ChannelDB.on_channel_update.
  destruct (negb _); [reflexivity |].
  destruct (ChannelDB.get_pending_channel_info db _) as [ci |]; simpl.
  - apply row_update_policy_dom.
  - reflexivity.
Qed.

Lemma process_policy_dom calls : forall db,
  dom (ChannelDB.policy (process calls db)) = dom (ChannelDB.policy db).
Proof.
  induction calls as [| call calls IH]; intros db; [reflexivity |].
  unfold process_updates in *. simpl. rewrite IH. apply db_update_policy_dom.
Qed.

Theorem on_channel_update_never_inserts calls db :
  ChannelDB.policy db = ∅ ->
  ChannelDB.policy (process calls db) = ∅.
Proof.
  intros Hempty. apply dom_empty_iff_L. rewrite process_policy_dom, Hempty.
  apply dom_empty_L.
Qed.

(** An update for an unknown channel, on our chain: the lookup in the
    verified set raises before [NotFoundChanAnnouncementForUpdate] can. *)
Lemma db_update_unknown_scid db msg trusted :
  ChannelUpdate.chain_hash msg = genesis ->
  ChannelDB.ca_verifier db !! ChannelUpdate.short_channel_id msg = None ->
  db_update db msg trusted = (Raise (AttributeError "ChanInfoInDB"), db).
Proof.
  intros Hchain Hpending. unfold ChannelDB.on_channel_update.
  rewrite Hchain, bool_decide_eq_true_2 by reflexivity. simpl.
  unfold ChannelDB.get_pending_channel_info. rewrite Hpending. reflexivity.
Qed.

(** An update of another chain is dropped, whatever it is about. *)
Lemma db_update_other_chain db msg trusted :
  ChannelUpdate.chain_hash msg <> genesis ->
  db_update db msg trusted = (Return tt, db).
Proof.
  intros Hchain. unfold ChannelDB.on_channel_update.
  rewrite bool_decide_eq_false_2 by congruence. reflexivity.
Qed.

(** No call of [on_channel_update] ends in
    [NotFoundChanAnnouncementForUpdate]. *)
Lemma row_update_not_notfound db self2 msg trusted :
  (row_update db self2 msg trusted).1 <> Raise NotFoundChanAnnouncementForUpdate.
Proof.
  unfold ChannelDB.ChannelInfoInDB_on_channel_update.
  destruct (negb _); [discriminate |].
  destruct (match ChannelDB.policy db !! _ with Some _ => _ | None => _ end);
    [discriminate |].
  destruct trusted.
  - destruct (ChannelDB.policy db !! _); [destruct (forallb _ _) |]; discriminate.
  - unfold bfh. destruct (fromhex_chars _); unfold mbind, result_bind; [| discriminate].
    destruct (verify msg _); [| discriminate].
    destruct (ChannelDB.policy db !! _); [destruct (forallb _ _) |]; discriminate.
Qed.

Lemma on_channel_update_never_notfound db msg trusted :
  (db_update db msg trusted).1 <> Raise NotFoundChanAnnouncementForUpdate.
Proof.
  unfold ChannelDB.on_channel_update.
  destruct (negb _); [discriminate |].
  destruct (ChannelDB.get_pending_channel_info db _) as [ci |]; simpl.
  - apply row_update_not_notfound.
  - discriminate.
Qed.

End UpdateFacts.

(** C1, at the failing input: the first update for a channel that has no
    policy yet, trusted and on our chain, ends in [AttributeError]; the
    store is left as it was, without a policy for the addressed node. *)
Theorem on_channel_update_first_update_not_stored (utcoffset : Z -> Z) :
  let msg := Fixtures.update Fixtures.genesis 2 1 100 500 in
  let db := Fixtures.announced in
  ChannelDB.get_pending_channel_info db (S1.scid 2) = Some S1.channel_2
  /\ policy_key S1.channel_2 msg = (hex S1.X, hex (S1.scid 2))
  /\ ChannelDB.on_channel_update (fun _ _ => true) Fixtures.genesis utcoffset db msg true
     = (Raise (AttributeError "cltv_expiry_delta"), db)
  /\ ChannelDB.policy db !! (hex S1.X, hex (S1.scid 2)) = None.
Proof. repeat split; vm_compute; reflexivity. Qed.

(** C4, at the failing input: an update on our chain for a channel that is
    neither staged nor in the table of channels ends in [AttributeError],
    raised by [chan_for_id], not in [NotFoundChanAnnouncementForUpdate]. *)
Theorem on_channel_update_unknown_scid_attribute_error (utcoffset : Z -> Z) :
  let msg := Fixtures.update Fixtures.genesis 9 0 100 500 in
  let db := Fixtures.announced in
  ChannelDB.get_pending_channel_info db (S1.scid 9) = None
  /\ ChannelDB.channel_info db !! hex (S1.scid 9) = None
  /\ ChannelDB.on_channel_update (fun _ _ => true) Fixtures.genesis utcoffset db msg true
     = (Raise (AttributeError "ChanInfoInDB"), db).
Proof. repeat split; vm_compute; reflexivity. Qed.

(** ** The graph store: policy lookup *)

(** C5, at the failing input: the table of channels holds channel 1 and
    the policy table holds the policy of [A] for it, yet asking for that
    policy ends in [AttributeError]: the store has no [get_channel_info];
    the method of the row that would answer, [get_policy_for_node], raises
    [AttributeError] when it is called on its own.  Asking where no policy
    is stored ends the same way. *)
Theorem get_routing_policy_for_channel_attribute_error (utcoffset : Z -> Z) :
  ChannelDB.channel_info S1.db !! hex (S1.scid 1) = Some S1.channel_1
  /\ ChannelDB.policy S1.db !! (hex S1.A, hex (S1.scid 1))
     = Some (S1.policy_of S1.A 1 0 1000)
  /\ ChannelDB.get_routing_policy_for_channel utcoffset S1.db S1.A (S1.scid 1)
     = Raise (AttributeError "get_channel_info")
  /\ ChannelDB.ChannelInfoInDB_get_policy_for_node S1.db S1.channel_1 S1.A
     = Raise (AttributeError "node1_id")
  /\ ChannelDB.policy Fixtures.announced !! (hex S1.B, hex (S1.scid 2)) = None
  /\ ChannelDB.get_routing_policy_for_channel utcoffset Fixtures.announced S1.B (S1.scid 2)
     = Raise (AttributeError "get_channel_info").
Proof. repeat split; vm_compute; reflexivity. Qed.

(** ** The graph store: recent peers *)

Lemma add_recent_peer_keeps now db peer key :
  is_Some (ChannelDB.address db !! key) ->
  is_Some (ChannelDB.address (ChannelDB.add_recent_peer now db peer).2 !! key).
Proof.
  intros Hkey. unfold ChannelDB.add_recent_peer.
  destruct (ChannelDB.one_or_none _) as [[addr |] | e |]; simpl; try exact Hkey.
  - rewrite lookup_insert. destruct (decide (addr.1 = key)); [eauto | exact Hkey].
  - destruct (ChannelDB.node_info db !! _); simpl;
      (rewrite lookup_insert; case_decide; [eauto | exact Hkey]).
Qed.

(** No call of [add_recent_peer] removes an address: the table only
    grows. *)
Theorem add_recent_peers_keep calls : forall db key,
  is_Some (ChannelDB.address db !! key) ->
  is_Some (ChannelDB.address (Fixtures.add_recent_peers calls db) !! key).
Proof.
  induction calls as [| call calls IH]; intros db key Hkey; [exact Hkey |].
  unfold Fixtures.add_recent_peers in *. simpl. apply IH, add_recent_peer_keeps, Hkey.
Qed.

(** C8, at the failing input: twenty-one distinct peers added to a fresh
    store leave twenty-one addresses, the oldest among them. *)
Theorem add_recent_peer_no_cap :
  let db := Fixtures.add_recent_peers (Fixtures.peers 21) ChannelDB.init in
  size (ChannelDB.address db) = 21%nat
  /\ NUM_MAX_RECENT_PEERS = 20
  /\ ChannelDB.address db !! (hex [byte_of 2; byte_of 1], "10.0.0.1"%string, 9735) = Some 1.
Proof. repeat split; vm_compute; reflexivity. Qed.

(** ** The path finder: the finder object is only read *)

Section Frame.

Import LNPathFinder.

Lemma preserves_ret {A : Type} (a : A) : preserves (mret a).
Proof. intros self. reflexivity. Qed.

Lemma preserves_lift {A : Type} (r : result A) : preserves (lift r).
Proof. intros self. reflexivity. Qed.

Lemma preserves_get_self : preserves get_self.
Proof. intros self. reflexivity. Qed.

Lemma preserves_bind {A B : Type} (m : M A) (k : A -> M B) :
  preserves m -> (forall a, preserves (k a)) -> preserves (m ≫= k).
Proof.
  intros Hm Hk self. unfold mbind, M_bind. specialize (Hm self).
  destruct (m self) as [[a | e |] self']; simpl in Hm; subst self'; try reflexivity.
  apply Hk.
Qed.

(** Splits a method into its steps; what is left are the calls of other
    methods. *)
Ltac frame :=
  repeat match goal with
         | |- preserves (mret _) => apply preserves_ret
         | |- preserves (lift _) => apply preserves_lift
         | |- preserves get_self => apply preserves_get_self
         | |- preserves (mbind _ _) => apply preserves_bind; [| intros ?]
         | |- preserves (let '(_, _) := ?x in _) => destruct x
         | |- preserves (match ?x with _ => _ end) => destruct x
         | |- preserves (let _ := _ in _) => lazy zeta
         end.

Lemma preserves_edge_cost scid start_node end_node amt ignore_costs :
  preserves (_edge_cost scid start_node end_node amt ignore_costs).
Proof. unfold _edge_cost. frame. Qed.

Lemma preserves_inspect_edge nodeA my_channels scid startnode endnode amt st :
  preserves (inspect_edge nodeA my_channels scid startnode endnode amt st).
Proof.
  unfold inspect_edge. frame. apply preserves_edge_cost.
Qed.

Lemma preserves_explore_channels nodeA my_channels endnode amt channels : forall st,
  preserves (explore_channels nodeA my_channels endnode amt channels st).
Proof.
  induction channels as [| scid channels IH]; intros st; cbn [explore_channels].
  - apply preserves_ret.
  - frame; try apply IH. apply preserves_inspect_edge.
Qed.

Lemma preserves_main_loop_pass nodeA my_channels st :
  preserves (main_loop_pass nodeA my_channels st).
Proof.
  unfold main_loop_pass. frame. apply preserves_explore_channels.
Qed.

Lemma preserves_main_loop nodeA my_channels fuel : forall st,
  preserves (main_loop nodeA my_channels fuel st).
Proof.
  induction fuel as [| fuel IH]; intros st; cbn [main_loop].
  - apply preserves_lift.
  - frame; try apply IH. apply preserves_main_loop_pass.
Qed.

Lemma preserves_find_path_for_payment fuel nodeA nodeB amt my_channels :
  preserves (find_path_for_payment fuel nodeA nodeB amt my_channels).
Proof.
  unfold find_path_for_payment. frame. apply preserves_main_loop.
Qed.

(** C9.  Whatever the graph, the payer, the payee, the amount, our own
    channels and the contents of the blacklist, and however the search
    ends, [find_path_for_payment] leaves the blacklist (and the rest of the
    finder object) as it found it. *)
Theorem find_path_for_payment_keeps_blacklist
    (graph : ChannelGraph) (contents : gset bytes) (fuel : nat)
    (nodeA nodeB : bytes) (invoice_amount_msat : Z) (my_channels : list Channel.t) :
  let self := {| channel_db := graph; blacklist := contents |} in
  let after :=
    (find_path_for_payment fuel nodeA nodeB invoice_amount_msat my_channels self).2 in
  blacklist after = contents /\ after = self.
Proof.
  cbv zeta.
  rewrite (preserves_find_path_for_payment fuel nodeA nodeB invoice_amount_msat
             my_channels). split; reflexivity.
Qed.

End Frame.

(** ** Scenario S1 *)

(** C2, at the failing input.  The store of the source holds the S1 graph:
    both channels in table [channel_info], both policies in table [policy].
    [find_path_for_payment(A, B, 1_000_000)] takes the payee from the queue
    and asks the store for its channels; the store has no
    [get_channels_for_node], and the call ends in [AttributeError], however
    many passes its loops are given: no path is returned.  The two other
    lookups that the search makes fail as well: the store has no
    [get_channel_info], and [get_policy_for_node] of a row raises. *)
Theorem S1_find_path_attribute_error (fuel : nat) :
  let finder := LNPathFinder.__init__ (LNPathFinder.of_ChannelDB S1.db) in
  ChannelDB.channel_info S1.db !! hex (S1.scid 1) = Some S1.channel_1
  /\ ChannelDB.channel_info S1.db !! hex (S1.scid 2) = Some S1.channel_2
  /\ ChannelDB.policy S1.db !! (hex S1.A, hex (S1.scid 1)) = Some (S1.policy_of S1.A 1 0 1000)
  /\ ChannelDB.policy S1.db !! (hex S1.X, hex (S1.scid 2)) = Some (S1.policy_of S1.X 2 1 500)
  /\ (LNPathFinder.find_path_for_payment (S fuel) S1.A S1.B S1.invoice_amount_msat []
        finder).1
     = Raise (AttributeError "get_channels_for_node")
  /\ LNPathFinder.get_channel_info (LNPathFinder.channel_db finder) (S1.scid 2)
     = Raise (AttributeError "get_channel_info")
  /\ LNPathFinder.get_policy_for_node (LNPathFinder.channel_db finder) S1.channel_2 S1.X
     = Raise (AttributeError "node1_id").
Proof.
  cbv zeta. repeat split; vm_compute; reflexivity.
Qed.

(** ** Further properties of the store and of the route checks *)

Section StoreFacts.

Variable verify : ChannelUpdate.t -> bytes -> bool.
Variable genesis : bytes.
Variable utcoffset : Z -> Z.

Local Abbreviation db_update := (ChannelDB.on_channel_update verify genesis utcoffset).

(** From a store without policies no sequence of [on_channel_update] calls
    stores one. *)
Theorem on_channel_update_never_stores_first_policy calls db :
  ChannelDB.policy db = ∅ ->
  ChannelDB.policy (process_updates verify genesis utcoffset calls db) = ∅.
Proof. apply on_channel_update_never_inserts. Qed.

(** An update of another chain is dropped without a lookup and without
    an error. *)
Theorem on_channel_update_other_chain_dropped db msg trusted :
  ChannelUpdate.chain_hash msg <> genesis ->
  db_update db msg trusted = (Return tt, db).
Proof. apply db_update_other_chain. Qed.

(** No call of [on_channel_update] ends in
    [NotFoundChanAnnouncementForUpdate], whatever the store holds, whatever
    the message and whether it is trusted.  Where the staging set does not
    know the channel of an update of our chain, [chan_for_id] raises
    [AttributeError] before the [raise] of the source is reached, and the
    store is left as it was. *)
Theorem on_channel_update_never_not_found db msg trusted :
  match (db_update db msg trusted).1 with
  | Raise NotFoundChanAnnouncementForUpdate => False
  | _ => True
  end
  /\ (ChannelUpdate.chain_hash msg = genesis ->
      ChannelDB.get_pending_channel_info db (ChannelUpdate.short_channel_id msg) = None ->
      db_update db msg trusted = (Raise (AttributeError "ChanInfoInDB"), db)).
Proof.
  split.
  - pose proof (on_channel_update_never_notfound verify genesis utcoffset db msg trusted) as H.
    destruct (db_update db msg trusted).1 as [u | [] |]; try exact I. apply H. reflexivity.
  - intros Hchain Hpending. apply db_update_unknown_scid; assumption.
Qed.

End StoreFacts.

Section RouteFacts.

Variable NUM_MAX_EDGES_IN_PAYMENT_PATH : Z.

(** S7: a route with more edges than the path limit is refused whatever
    its fees. *)
Theorem is_route_sane_to_use_length_cap route invoice_amount_msat min_final_cltv_expiry :
  Z.of_nat (length route) > NUM_MAX_EDGES_IN_PAYMENT_PATH ->
  is_route_sane_to_use NUM_MAX_EDGES_IN_PAYMENT_PATH route invoice_amount_msat
                       min_final_cltv_expiry = false.
Proof.
  intros Hlen. unfold is_route_sane_to_use.
  destruct (Z.gtb_spec (Z.of_nat (length route)) NUM_MAX_EDGES_IN_PAYMENT_PATH);
    [reflexivity | lia].
Qed.

End RouteFacts.

(** ** The properties above at concrete inputs *)

Lemma on_channel_update_never_stores_first_policy_witness :
  ChannelDB.policy
    (process_updates (fun _ _ => true) Fixtures.genesis (fun _ => 3600)
       [(Fixtures.update Fixtures.genesis 2 1 100 500, true);
        (Fixtures.update Fixtures.genesis 2 0 101 600, false);
        (Fixtures.update Fixtures.genesis 9 0 102 700, true)]
       Fixtures.announced)
  = ∅.
Proof.
  apply (on_channel_update_never_stores_first_policy (fun _ _ => true) Fixtures.genesis
           (fun _ => 3600)).
  reflexivity.
Defined.

Lemma on_channel_update_other_chain_dropped_witness :
  ChannelDB.on_channel_update (fun _ _ => true) Fixtures.genesis (fun _ => 3600)
    Fixtures.announced (Fixtures.update [] 9 0 100 500) true
  = (Return tt, Fixtures.announced).
Proof.
  apply (on_channel_update_other_chain_dropped (fun _ _ => true) Fixtures.genesis
           (fun _ => 3600)).
  discriminate.
Defined.

Lemma parse_addresses_field_port_zero_is_onion_witness :
  exists data, "aaaaaaaaaaaaaaaa.onion"%string = onion_host data.
Proof.
  apply (parse_addresses_field_port_zero_is_onion (fun _ => true)
           (byte_of 3 :: replicate 10 (byte_of 0) ++ [byte_of 0; byte_of 0])
           [("aaaaaaaaaaaaaaaa.onion"%string, 0)]).
  - vm_compute. reflexivity.
  - left. reflexivity.
Defined.

(** The first of twenty-one peers is still there after the other twenty. *)
Lemma add_recent_peers_keep_witness :
  is_Some (ChannelDB.address
             (Fixtures.add_recent_peers (Fixtures.peers 21) ChannelDB.init)
           !! (hex [byte_of 2; byte_of 1], "10.0.0.1"%string, 9735)).
Proof.
  apply (add_recent_peers_keep (tail (Fixtures.peers 21))
           (Fixtures.add_recent_peers [Fixtures.peer 1] ChannelDB.init)).
  exists 1. vm_compute. reflexivity.
Defined.

Lemma is_route_sane_to_use_length_cap_witness :
  is_route_sane_to_use 20 (Fixtures.free_route 21) 1000000 9 = false.
Proof.
  apply (is_route_sane_to_use_length_cap 20 (Fixtures.free_route 21) 1000000 9).
  vm_compute. reflexivity.
Defined.

(** Twenty free edges pass. *)
Example is_route_sane_to_use_twenty_edges :
  is_route_sane_to_use 20 (Fixtures.free_route 20) 1000000 9 = true.
Proof. vm_compute. reflexivity. Qed.

(** * Part III: properties of the rest of the source *)

(** ** The path finder: the steps of a call that returns *)

Section PathFacts.

Import LNPathFinder.

Lemma run_ret {A : Type} (a b : A) (self self' : t) :
  (mret a : M A) self = (Return b, self') -> a = b /\ self' = self.
Proof. unfold mret, M_ret. intros [= -> ->]. split; reflexivity. Qed.

Lemma run_lift {A : Type} (r : result A) (b : A) (self self' : t) :
  lift r self = (Return b, self') -> r = Return b /\ self' = self.
Proof. unfold lift. intros [= -> ->]. split; reflexivity. Qed.


End PathFacts.

(** ** The path finder: what a search can return *)

Section EdgeCostFacts.

Import LNPathFinder.


(** Paying oneself: with payer and payee the same node the search stops at
    its first pass and the path is empty, whatever the store holds. *)
Theorem find_path_for_payment_to_self fuel node amt my self :
  (find_path_for_payment (S fuel) node node amt my self).1 = Return (Some []).
Proof.
  unfold find_path_for_payment, start, mbind, M_bind. cbn [main_loop].
  unfold mbind, M_bind, main_loop_pass. cbn [nodes_to_explore].
  rewrite bool_decide_eq_true_2 by reflexivity.
  unfold mret, M_ret, lift. cbn [backtrack prev_node].
  rewrite bool_decide_eq_true_2 by reflexivity. reflexivity.
Qed.






(** On the store of the source, whatever its tables hold, a search between
    two different nodes ends at its first pass: the payee is taken from the
    queue and [self.channel_db.get_channels_for_node] is read, which the
    store does not have.  The blacklist, the amount and our own channels
    play no part. *)
Theorem find_path_for_payment_on_source_store db contents fuel nodeA nodeB amt my :
  nodeA <> nodeB ->
  (find_path_for_payment (S fuel) nodeA nodeB amt my
     {| channel_db := of_ChannelDB db; blacklist := contents |}).1
  = Raise (AttributeError "get_channels_for_node").
Proof.
  intros Hne. unfold find_path_for_payment, start, mbind, M_bind. cbn [main_loop].
  unfold mbind, M_bind, main_loop_pass. cbn [nodes_to_explore].
  rewrite bool_decide_eq_false_2 by congruence.
  unfold distance. cbn [distance_from_start]. rewrite lookup_singleton_eq.
  reflexivity.
Qed.

End EdgeCostFacts.

(** ** The graph store: ids as hexadecimal text *)

Lemma byte_hex_round x :
  (hv ← hex_value (hex_digit (ord_byte x / 16));
   lv ← hex_value (hex_digit (ord_byte x mod 16));
   Some (byte_of (16 * hv + lv))) = Some x.
Proof. destruct x as [[] [] [] [] [] [] [] []]; vm_compute; reflexivity. Qed.

Lemma fromhex_hexlify b : fromhex_chars (hexlify b) = Some b.
Proof.
  induction b as [| x b IH]; [reflexivity |].
  change (hexlify (x :: b))
    with (hex_digit (ord_byte x / 16) :: hex_digit (ord_byte x mod 16) :: hexlify b).
  cbn [fromhex_chars]. pose proof (byte_hex_round x) as Hx.
  destruct (hex_value (hex_digit (ord_byte x / 16))) as [hv |]; [| discriminate Hx].
  destruct (hex_value (hex_digit (ord_byte x mod 16))) as [lv |]; [| discriminate Hx].
  cbn in Hx |- *. rewrite IH. cbn. injection Hx as ->. reflexivity.
Qed.

(** Round trip of the id encoding: [bytes.fromhex(b.hex()) == b]. *)
Lemma bfh_hex b : bfh (hex b) = Return b.
Proof.
  unfold bfh, hex. rewrite list_ascii_of_string_of_list_ascii, fromhex_hexlify. reflexivity.
Qed.

(** ** The graph store: recent peers and last good addresses *)

Section AddressFacts.

Local Abbreviation rows_of db node_id :=
  (filter (fun row : string * string * Z * Z => row.1.1.1 = node_id)
          (map_to_list (ChannelDB.address db))).

Lemma elem_of_rows db node_id (row : string * string * Z * Z) :
  row ∈ rows_of db node_id
  <-> ChannelDB.address db !! row.1 = Some row.2 /\ row.1.1.1 = node_id.
Proof. rewrite list_elem_of_filter, elem_of_map_to_list'. tauto. Qed.

Lemma NoDup_rows db node_id : NoDup (rows_of db node_id).
Proof. apply NoDup_filter, NoDup_map_to_list. Qed.

Lemma singleton_list {A : Type} (l : list A) (x : A) :
  NoDup l -> x ∈ l -> (forall y, y ∈ l -> y = x) -> l = [x].
Proof.
  intros Hnd Hx Hall. destruct l as [| a [| b l]].
  - inversion Hx.
  - rewrite (Hall a) by left. reflexivity.
  - exfalso. apply NoDup_cons in Hnd as [Hnotin _]. apply Hnotin.
    rewrite (Hall a) by left. rewrite <- (Hall b) by (right; left). left.
Qed.

Lemma rows_none db node_id :
  (forall key, is_Some (ChannelDB.address db !! key) -> key.1.1 <> node_id) ->
  rows_of db node_id = [].
Proof.
  intros Hnone. destruct (rows_of db node_id) as [| row rows] eqn:Hrows; [reflexivity |].
  exfalso. assert (Hin : row ∈ rows_of db node_id) by (rewrite Hrows; left).
  apply elem_of_rows in Hin as [Hlook Hnode]. exact (Hnone row.1 (mk_is_Some _ _ Hlook) Hnode).
Qed.

Lemma rows_one db key date :
  one_address_per_node db ->
  ChannelDB.address db !! key = Some date ->
  rows_of db key.1.1 = [(key, date)].
Proof.
  intros Hone Hkey. apply singleton_list.
  - apply NoDup_rows.
  - apply elem_of_rows. split; [exact Hkey | reflexivity].
  - intros [key' date'] Hin. apply elem_of_rows in Hin as [Hlook Hnode]. simpl in *.
    assert (key' = key) as -> by (apply Hone; eauto).
    congruence.
Qed.

(** The rows of a node are none or one when no node has two. *)
Lemma rows_cases db node_id :
  one_address_per_node db ->
  (rows_of db node_id = []
   /\ forall key, is_Some (ChannelDB.address db !! key) -> key.1.1 <> node_id)
  \/ (exists key date, rows_of db node_id = [(key, date)]
                       /\ ChannelDB.address db !! key = Some date /\ key.1.1 = node_id).
Proof.
  intros Hone. destruct (rows_of db node_id) as [| [key date] rows] eqn:Hrows.
  - left. split; [reflexivity |]. intros key [date Hkey] Hnode.
    assert (Hin : (key, date) ∈ rows_of db node_id)
      by (apply elem_of_rows; split; assumption).
    rewrite Hrows in Hin. inversion Hin.
  - right. assert (Hin : (key, date) ∈ rows_of db node_id) by (rewrite Hrows; left).
    apply elem_of_rows in Hin as [Hlook Hnode]. simpl in Hlook, Hnode.
    exists key, date. split; [| split; assumption].
    rewrite <- Hrows, <- Hnode. exact (rows_one db key date Hone Hlook).
Qed.

Lemma add_recent_peer_new now db peer :
  (forall key, is_Some (ChannelDB.address db !! key) ->
               key.1.1 <> hex (LNPeerAddr.pubkey peer)) ->
  (ChannelDB.add_recent_peer now db peer).1 = Return tt
  /\ ChannelDB.address (ChannelDB.add_recent_peer now db peer).2
     = <[(hex (LNPeerAddr.pubkey peer), LNPeerAddr.host peer, LNPeerAddr.port peer) := now]>
         (ChannelDB.address db)
  /\ is_Some (ChannelDB.node_info (ChannelDB.add_recent_peer now db peer).2
              !! hex (LNPeerAddr.pubkey peer))
  /\ (forall node_id, is_Some (ChannelDB.node_info db !! node_id) ->
        is_Some (ChannelDB.node_info (ChannelDB.add_recent_peer now db peer).2 !! node_id)).
Proof.
  intros Hnone. unfold ChannelDB.add_recent_peer. rewrite (rows_none _ _ Hnone).
  cbn [ChannelDB.one_or_none].
  destruct (ChannelDB.node_info db !! hex (LNPeerAddr.pubkey peer)) as [node |] eqn:Hnode;
    cbn; repeat split; try reflexivity.
  - rewrite Hnode. eauto.
  - tauto.
  - rewrite lookup_insert_eq. eauto.
  - intros node_id Hsome. rewrite lookup_insert. case_decide; [eauto | exact Hsome].
Qed.

Lemma add_recent_peer_known now db peer key date :
  one_address_per_node db ->
  ChannelDB.address db !! key = Some date ->
  key.1.1 = hex (LNPeerAddr.pubkey peer) ->
  ChannelDB.add_recent_peer now db peer
  = (Return tt, ChannelDB.set_address db (<[key := now]> (ChannelDB.address db))).
Proof.
  intros Hone Hkey Hnode. unfold ChannelDB.add_recent_peer.
  rewrite <- Hnode, (rows_one db key date Hone Hkey). reflexivity.
Qed.

Lemma add_recent_peer_one_per_node now db peer :
  one_address_per_node db ->
  (ChannelDB.add_recent_peer now db peer).1 = Return tt
  /\ one_address_per_node (ChannelDB.add_recent_peer now db peer).2.
Proof.
  intros Hone.
  destruct (rows_cases db (hex (LNPeerAddr.pubkey peer)) Hone)
    as [[_ Hnone] | (key & date & _ & Hkey & Hnode)].
  - destruct (add_recent_peer_new now db peer Hnone) as (Hret & Haddr & _).
    split; [exact Hret |]. unfold one_address_per_node. rewrite Haddr.
    intros key1 key2 H1 H2 Heq. rewrite lookup_insert in H1. rewrite lookup_insert in H2.
    destruct (decide (_ = key1)) as [<- | Hne1], (decide (_ = key2)) as [<- | Hne2];
      try reflexivity.
    + exfalso. exact (Hnone key2 H2 (eq_sym Heq)).
    + exfalso. exact (Hnone key1 H1 Heq).
    + exact (Hone key1 key2 H1 H2 Heq).
  - rewrite (add_recent_peer_known now db peer key date Hone Hkey Hnode).
    split; [reflexivity |]. unfold one_address_per_node.
    cbn [snd ChannelDB.address ChannelDB.set_address].
    intros key1 key2 H1 H2 Heq. rewrite lookup_insert in H1. rewrite lookup_insert in H2.
    apply Hone; [| | exact Heq].
    + destruct (decide (key = key1)) as [<- | _]; [eauto | exact H1].
    + destruct (decide (key = key2)) as [<- | _]; [eauto | exact H2].
Qed.

Lemma add_recent_peers_one_per_node calls : forall db,
  one_address_per_node db -> one_address_per_node (Fixtures.add_recent_peers calls db).
Proof.
  induction calls as [| call calls IH]; intros db Hone; [exact Hone |].
  unfold Fixtures.add_recent_peers in *. cbn [foldl].
  apply IH, add_recent_peer_one_per_node, Hone.
Qed.

Lemma init_one_per_node : one_address_per_node ChannelDB.init.
Proof. intros key1 key2 [date H] _ _. cbn in H. rewrite lookup_empty in H. discriminate H. Qed.

(** The invariant of the address table: when no node has two addresses,
    [add_recent_peer] returns normally and no node has two addresses
    afterwards. *)
Theorem add_recent_peer_keeps_one_address_per_node now db peer :
  one_address_per_node db ->
  (ChannelDB.add_recent_peer now db peer).1 = Return tt
  /\ one_address_per_node (ChannelDB.add_recent_peer now db peer).2.
Proof. apply add_recent_peer_one_per_node. Qed.

(** Starting from a fresh store, no call of [add_recent_peer] raises,
    whatever peers were added before, in whatever order and however often:
    the [one_or_none()] of its query never meets two rows. *)
Theorem add_recent_peer_never_raises_from_fresh calls now peer :
  (ChannelDB.add_recent_peer now (Fixtures.add_recent_peers calls ChannelDB.init) peer).1
  = Return tt.
Proof.
  apply add_recent_peer_one_per_node, add_recent_peers_one_per_node, init_one_per_node.
Qed.

(** Insert then look up: after [add_recent_peer] for a node that had no
    address, [get_last_good_address] of its key returns the peer as it was
    given. *)
Theorem get_last_good_address_after_add_recent_peer now db peer :
  (forall key, is_Some (ChannelDB.address db !! key) ->
               key.1.1 <> hex (LNPeerAddr.pubkey peer)) ->
  ChannelDB_get_last_good_address (ChannelDB.add_recent_peer now db peer).2
                                  (LNPeerAddr.pubkey peer)
  = Return (Some peer).
Proof.
  intros Hnone. destruct (add_recent_peer_new now db peer Hnone) as (_ & Haddr & _).
  unfold ChannelDB_get_last_good_address.
  set (key := (hex (LNPeerAddr.pubkey peer), LNPeerAddr.host peer, LNPeerAddr.port peer)).
  assert (Hrows : rows_of (ChannelDB.add_recent_peer now db peer).2
                          (hex (LNPeerAddr.pubkey peer)) = [(key, now)]).
  { apply singleton_list.
    - apply NoDup_rows.
    - apply elem_of_rows. rewrite Haddr. split; [apply lookup_insert_eq | reflexivity].
    - intros [key' date'] Hin. apply elem_of_rows in Hin as [Hlook Hnode].
      rewrite Haddr in Hlook. cbn [fst snd] in Hlook, Hnode.
      rewrite lookup_insert in Hlook. fold key in Hlook.
      destruct (decide (key = key')) as [<- | Hne]; [congruence |].
      exfalso. exact (Hnone key' (mk_is_Some _ _ Hlook) Hnode). }
  rewrite Hrows. cbn. rewrite bfh_hex. cbn. destruct peer; reflexivity.
Qed.

(** A peer whose node already has an address keeps that address: the call
    refreshes the date of the stored row and ignores the host and port it
    was given, and [get_last_good_address] goes on returning the stored
    host and port. *)
Theorem add_recent_peer_keeps_first_address now db peer host port date :
  one_address_per_node db ->
  ChannelDB.address db !! (hex (LNPeerAddr.pubkey peer), host, port) = Some date ->
  ChannelDB.address (ChannelDB.add_recent_peer now db peer).2
  = <[(hex (LNPeerAddr.pubkey peer), host, port) := now]> (ChannelDB.address db)
  /\ ChannelDB_get_last_good_address (ChannelDB.add_recent_peer now db peer).2
                                     (LNPeerAddr.pubkey peer)
     = Return (Some (LNPeerAddr.mk host port (LNPeerAddr.pubkey peer))).
Proof.
  intros Hone Hkey.
  pose proof (add_recent_peer_one_per_node now db peer Hone) as [_ Hone'].
  rewrite (add_recent_peer_known now db peer _ date Hone Hkey eq_refl) in Hone' |- *.
  split; [reflexivity |]. cbn [snd] in Hone' |- *.
  unfold ChannelDB_get_last_good_address.
  pose proof (rows_one _ (hex (LNPeerAddr.pubkey peer), host, port) now Hone'
                (lookup_insert_eq _ _ _)) as Hrows.
  cbn [fst snd] in Hrows. rewrite Hrows.
  cbn. rewrite bfh_hex. reflexivity.
Qed.

(** A node without an address has no last good address. *)
Theorem get_last_good_address_unknown db node_id :
  (forall key, is_Some (ChannelDB.address db !! key) -> key.1.1 <> hex node_id) ->
  ChannelDB_get_last_good_address db node_id = Return None.
Proof.
  intros Hnone. unfold ChannelDB_get_last_good_address.
  rewrite (rows_none _ _ Hnone). reflexivity.
Qed.

(** Referential integrity: when every address belongs to a node of table
    [node_info], it does so after [add_recent_peer], and the peer's node
    is in the table. *)
Theorem add_recent_peer_keeps_addresses_with_nodes now db peer :
  one_address_per_node db ->
  addresses_have_nodes db ->
  addresses_have_nodes (ChannelDB.add_recent_peer now db peer).2
  /\ is_Some (ChannelDB_nodes_get (ChannelDB.add_recent_peer now db peer).2
                                  (LNPeerAddr.pubkey peer)).
Proof.
  intros Hone Hint. unfold ChannelDB_nodes_get.
  destruct (rows_cases db (hex (LNPeerAddr.pubkey peer)) Hone)
    as [[_ Hnone] | (key & date & _ & Hkey & Hnode)].
  - destruct (add_recent_peer_new now db peer Hnone) as (_ & Haddr & Hpeer & Hnodes).
    split; [| exact Hpeer]. unfold addresses_have_nodes. rewrite Haddr.
    intros key Hsome. rewrite lookup_insert in Hsome.
    destruct (decide (_ = key)) as [<- | _]; [exact Hpeer | exact (Hnodes _ (Hint _ Hsome))].
  - rewrite (add_recent_peer_known now db peer key date Hone Hkey Hnode).
    unfold addresses_have_nodes.
    cbn [snd ChannelDB.address ChannelDB.node_info ChannelDB.set_address].
    split; [| rewrite <- Hnode; apply Hint; eauto].
    intros key' Hsome. rewrite lookup_insert in Hsome.
    destruct (decide (key = key')) as [<- | _]; apply Hint; eauto.
Qed.

End AddressFacts.

(** ** The graph store: policy lookup and private channel updates *)

(** [get_routing_policy_for_channel] never returns a policy, whatever the
    store holds: with an empty argument it returns [None]; with two
    non-empty arguments it reads [self.get_channel_info], which the store
    does not have, and ends in [AttributeError] before it looks at the
    table of channels or at the cache of private updates. *)
Theorem get_routing_policy_for_channel_never_a_policy utcoffset db
    start_node_id short_channel_id :
  ChannelDB.get_routing_policy_for_channel utcoffset db start_node_id short_channel_id
  = if bool_decide (start_node_id = [] \/ short_channel_id = [])
    then Return None
    else Raise (AttributeError "get_channel_info").
Proof.
  unfold ChannelDB.get_routing_policy_for_channel.
  destruct start_node_id as [| b n], short_channel_id as [| c s];
    first [ rewrite bool_decide_eq_true_2 by auto
          | rewrite bool_decide_eq_false_2 by (intros [|]; discriminate) ];
    reflexivity.
Qed.

(** Insert then look up: an update that
    [add_channel_update_for_private_channel] accepts is kept in the cache
    under its start node and channel, and [get_routing_policy_for_channel]
    never hands it out: asked for that start node and channel, it returns
    [None] or raises. *)
Theorem private_update_never_read verify utcoffset db msg start_node_id :
  let cached :=
    ChannelDB.add_channel_update_for_private_channel verify db msg start_node_id in
  (verify msg start_node_id = true ->
   ChannelDB._channel_updates_for_private_channels cached
     !! (start_node_id, ChannelUpdate.short_channel_id msg) = Some msg)
  /\ match ChannelDB.get_routing_policy_for_channel utcoffset cached start_node_id
             (ChannelUpdate.short_channel_id msg) with
     | Return (Some _) => False
     | _ => True
     end.
Proof.
  cbv zeta. split.
  - intros Hsig. unfold ChannelDB.add_channel_update_for_private_channel.
    rewrite Hsig. cbn. apply lookup_insert_eq.
  - unfold ChannelDB.get_routing_policy_for_channel.
    destruct start_node_id, (ChannelUpdate.short_channel_id msg); exact I.
Qed.

(** An update whose signature does not verify is not cached: the store is
    as before. *)
Lemma private_update_rejected verify db msg start_node_id :
  verify msg start_node_id = false ->
  ChannelDB.add_channel_update_for_private_channel verify db msg start_node_id = db.
Proof.
  intros Hsig. unfold ChannelDB.add_channel_update_for_private_channel.
  rewrite Hsig. reflexivity.
Qed.

(** ** Routes *)

Section RouteBuilding.

Variable lookup : bytes -> bytes -> result (option Policy.t).

Lemma extend_route_spec path : forall prev route0 route,
  extend_route lookup path prev route0 = Return route ->
  exists edges,
    route = route0 ++ edges
    /\ length edges = length path
    /\ forall i u v s,
         path !! i = Some (v, s) ->
         (prev :: map fst path) !! i = Some u ->
         exists channel_policy,
           lookup u s = Return (Some channel_policy)
           /\ edges !! i = Some (RouteEdge.from_channel_policy channel_policy s v).
Proof.
  induction path as [| [v0 s0] path IH]; intros prev route0 route H; cbn [extend_route] in H.
  - injection H as <-. exists []. rewrite app_nil_r. repeat split. intros i u v s Hi.
    discriminate Hi.
  - destruct (lookup prev s0) as [[p |] | e |] eqn:Hp; try discriminate H.
    unfold mbind, result_bind in H.
    destruct (IH _ _ _ H) as (edges & -> & Hlen & Hedges).
    exists (RouteEdge.from_channel_policy p s0 v0 :: edges).
    rewrite <- app_assoc. split; [reflexivity |]. split; [simpl; lia |].
    intros [| i] u v s Hi Hu.
    + injection Hi as <- <-. injection Hu as <-. exists p. split; [exact Hp | reflexivity].
    + exact (Hedges i u v s Hi Hu).
Qed.

(** A hop for which the store gives no policy makes
    [create_route_from_path] fail: no route is returned. *)
Theorem create_route_from_path_needs_policies path from_node_id i u v s :
  path !! i = Some (v, s) ->
  (from_node_id :: map fst path) !! i = Some u ->
  lookup u s = Return None ->
  match create_route_from_path lookup (Some path) from_node_id with
  | Return _ => False
  | _ => True
  end.
Proof.
  intros Hi Hu Hnone.
  destruct (create_route_from_path lookup (Some path) from_node_id) as [route | e |] eqn:H;
    [| exact I | exact I].
  cbn [create_route_from_path] in H.
  destruct (extend_route_spec _ _ _ _ H) as (edges & _ & _ & Hedges).
  destruct (Hedges i u v s Hi Hu) as (p & Hp & _). congruence.
Qed.

End RouteBuilding.

(** With the store of the source as it is, [create_route_from_path]
    returns a route for the empty path only.  For any other path it fails
    at the first hop: the policy lookup returns [None] when [from_node_id]
    or the hop's channel id is empty, and raises [AttributeError]
    otherwise. *)
Theorem create_route_from_path_on_source_store utcoffset db path from_node_id :
  create_route_from_path (ChannelDB.get_routing_policy_for_channel utcoffset db)
                         (Some path) from_node_id
  = match path with
    | [] => Return []
    | (node_id, short_channel_id) :: _ =>
        if bool_decide (from_node_id = [] \/ short_channel_id = [])
        then Raise (Exception_ (String.append
                                  "cannot find channel policy for short_channel_id: "
                                  (hex short_channel_id)))
        else Raise (AttributeError "get_channel_info")
    end.
Proof.
  destruct path as [| [node_id short_channel_id] path]; [reflexivity |].
  cbn [create_route_from_path extend_route].
  unfold ChannelDB.get_routing_policy_for_channel.
  destruct from_node_id as [| b n], short_channel_id as [| c s];
    first [ rewrite bool_decide_eq_true_2 by auto
          | rewrite bool_decide_eq_false_2 by (intros [|]; discriminate) ];
    reflexivity.
Qed.

(** ** Routes: fees and the whole-route check *)

(** With a non-negative proportional fee, a larger amount never pays a
    smaller fee, and a non-negative amount pays at least the base fee. *)
Theorem fee_for_edge_monotone e amt1 amt2 :
  0 <= RouteEdge.fee_proportional_millionths e ->
  amt1 <= amt2 ->
  RouteEdge.fee_for_edge e amt1 <= RouteEdge.fee_for_edge e amt2
  /\ (0 <= amt1 -> RouteEdge.fee_base_msat e <= RouteEdge.fee_for_edge e amt1).
Proof.
  intros Hprop Hle. unfold RouteEdge.fee_for_edge. split.
  - apply Z.add_le_mono_l, Z.div_le_mono; [lia | nia].
  - intros Hamt. assert (0 <= amt1 * RouteEdge.fee_proportional_millionths e / 1000000)
      by (apply Z.div_pos; [nia | lia]). lia.
Qed.

Lemma accumulate_route_compounded edges : forall amt cltv amt' cltv',
  accumulate_route edges amt cltv = Some (amt', cltv') ->
  amt' = compounded edges amt
  /\ cltv' = cltv + foldr Z.add 0 (map RouteEdge.cltv_expiry_delta edges).
Proof.
  induction edges as [| e edges IH]; intros amt cltv amt' cltv' H; cbn [accumulate_route] in H.
  - injection H as <- <-. split; [reflexivity | simpl; lia].
  - destruct (RouteEdge.is_sane_to_use e amt); cbn [negb] in H; [| discriminate H].
    apply IH in H as [-> ->]. split; [reflexivity | simpl; lia].
Qed.

Lemma accumulate_route_sane edges : forall amt cltv amt' cltv',
  accumulate_route edges amt cltv = Some (amt', cltv') ->
  forall i e, edges !! i = Some e ->
              RouteEdge.is_sane_to_use e (compounded (take i edges) amt) = true.
Proof.
  induction edges as [| e0 edges IH]; intros amt cltv amt' cltv' H i e Hi;
    [discriminate Hi |].
  cbn [accumulate_route] in H.
  destruct (RouteEdge.is_sane_to_use e0 amt) eqn:Hsane; cbn [negb] in H; [| discriminate H].
  destruct i as [| i]; [injection Hi as <-; exact Hsane |].
  exact (IH _ _ _ _ H i e Hi).
Qed.

Section RouteCheckFacts.

Variable NUM_MAX_EDGES_IN_PAYMENT_PATH : Z.

(** What [is_route_sane_to_use] guarantees of a route it accepts: the
    route is within the length limit; the sender's amount is the invoice
    amount compounded with the fees of all edges but the first, taken from
    the payee's end, and each of these edges is sane for the amount it
    forwards; the final cltv plus their deltas is at most 60 * 144; and the
    total fee is at most 50_000 msat, or else at most the invoice amount,
    at most 5_000_000 msat, and at most a tenth of an invoice above
    1_000_000 msat. *)
Theorem is_route_sane_to_use_accepted route invoice_amount_msat min_final_cltv_expiry :
  is_route_sane_to_use NUM_MAX_EDGES_IN_PAYMENT_PATH route invoice_amount_msat
                       min_final_cltv_expiry = true ->
  let paid_edges := rev (drop 1 route) in
  let total_fee := compounded paid_edges invoice_amount_msat - invoice_amount_msat in
  Z.of_nat (length route) <= NUM_MAX_EDGES_IN_PAYMENT_PATH
  /\ (forall i e, paid_edges !! i = Some e ->
        RouteEdge.is_sane_to_use e (compounded (take i paid_edges) invoice_amount_msat)
        = true)
  /\ min_final_cltv_expiry + foldr Z.add 0 (map RouteEdge.cltv_expiry_delta paid_edges)
     <= 60 * 144
  /\ (total_fee <= 50000
      \/ (total_fee <= invoice_amount_msat
          /\ total_fee <= 5000000
          /\ (invoice_amount_msat > 1000000 -> 10 * total_fee <= invoice_amount_msat))).
Proof.
  unfold is_route_sane_to_use. cbv zeta.
  destruct (Z.gtb_spec (Z.of_nat (length route)) NUM_MAX_EDGES_IN_PAYMENT_PATH) as [Hl | Hl];
    [discriminate |].
  destruct (accumulate_route _ _ _) as [[amt cltv] |] eqn:Hacc; [| discriminate].
  pose proof (accumulate_route_sane _ _ _ _ _ Hacc) as Hsane.
  apply accumulate_route_compounded in Hacc as [-> ->].
  destruct (Z.gtb_spec (min_final_cltv_expiry
                        + foldr Z.add 0 (map RouteEdge.cltv_expiry_delta (rev (drop 1 route))))
                       (60 * 144)) as [Hc | Hc]; [discriminate |].
  set (fee := compounded (rev (drop 1 route)) invoice_amount_msat - invoice_amount_msat).
  intros H. split; [exact Hl |]. split; [exact Hsane |]. split; [exact Hc |].
  destruct (Z.gtb_spec fee 50000) as [H50 | H50]; [| left; exact H50].
  right.
  destruct (Z.gtb_spec fee invoice_amount_msat) as [Ha | Ha]; [discriminate H |].
  destruct (Z.gtb_spec fee 5000000) as [H5 | H5]; [discriminate H |].
  split; [exact Ha |]. split; [exact H5 |]. intros Hbig.
  destruct (Z.gtb_spec invoice_amount_msat 1000000) as [Hm | Hm]; [| lia].
  cbn [andb] in H.
  destruct (int_gt_float fee (true_div invoice_amount_msat 10)) eqn:Ht; [discriminate H |].
  apply not_true_iff_false in Ht. rewrite int_gt_float_tenth in Ht. lia.
Qed.

(** The first edge of a route plays no part in the check: two routes of
    the same length that differ in their first edge only are accepted or
    refused alike. *)
Theorem is_route_sane_to_use_first_edge e e' rest invoice_amount_msat min_final_cltv_expiry :
  is_route_sane_to_use NUM_MAX_EDGES_IN_PAYMENT_PATH (e :: rest) invoice_amount_msat
                       min_final_cltv_expiry
  = is_route_sane_to_use NUM_MAX_EDGES_IN_PAYMENT_PATH (e' :: rest) invoice_amount_msat
                         min_final_cltv_expiry.
Proof. reflexivity. Qed.

End RouteCheckFacts.

(** ** The feature-bit validator: more known bits *)

(** Knowing more feature bits never turns an accepted bitfield into a
    refused one. *)
Theorem validate_features_known_set_monotone (KNOWN KNOWN' : gset Z) features :
  KNOWN ⊆ KNOWN' ->
  Features.validate_features KNOWN features = Return tt ->
  Features.validate_features KNOWN' features = Return tt.
Proof.
  intros Hsub Hok. unfold Features.validate_features in *.
  destruct (validate_bits_total KNOWN' (Features.list_enabled_bits features)) as [H | H];
    [exact H | exfalso].
  apply validate_bits_raises in H as (b & Hin & Hev & Hunk).
  assert (Hraise : Features.validate_bits KNOWN (Features.list_enabled_bits features)
                   = Raise UnknownEvenFeatureBits).
  { apply validate_bits_raises. exists b. split; [exact Hin |]. split; [exact Hev |].
    intros Hk. apply Hunk, Hsub, Hk. }
  congruence.
Qed.

(** ** The address-list decoder: records compose *)

Section ParseRecordsFacts.

Variable is_ip_address : string -> bool.

Local Abbreviation parse := (NodeInfoInDB.parse_addresses_field is_ip_address).
Local Abbreviation parse_loop := (NodeInfoInDB.parse_loop is_ip_address).
Local Abbreviation parse_record := (NodeInfoInDB.parse_record is_ip_address).

Ltac open_record b buf :=
  unfold NodeInfoInDB.parse_record, read;
  change (take 1 (b :: buf)) with [b]; change (drop 1 (b :: buf)) with (drop 0 buf);
  rewrite drop_0; unfold ord, mbind, result_bind.

(** The loop body only appends to the list it is given. *)
Lemma parse_record_accumulates buf addresses :
  parse_record buf addresses
  = match parse_record buf [] with
    | Return (NodeInfoInDB.Next buf' new) => Return (NodeInfoInDB.Next buf' (addresses ++ new))
    | r => r
    end.
Proof.
  destruct buf as [| b buf]; [reflexivity |]. open_record b buf.
  destruct (NodeInfoInDB.read_groups 8 2 buf) as [groups buf6].
  repeat match goal with
         | |- context [if ?c then _ else _] => destruct c
         end; rewrite ?app_nil_r; reflexivity.
Qed.

Lemma parse_loop_accumulates fuel : forall buf addresses,
  parse_loop fuel buf addresses
  = match parse_loop fuel buf [] with
    | Return new => Return (addresses ++ new)
    | r => r
    end.
Proof.
  induction fuel as [| fuel IH]; intros [| b buf] addresses;
    cbn [NodeInfoInDB.parse_loop]; rewrite ?app_nil_r; try reflexivity.
  rewrite (parse_record_accumulates (b :: buf) addresses).
  destruct (parse_record (b :: buf) []) as [[buf' new |] | e |];
    unfold mbind, result_bind; rewrite ?app_nil_r; try reflexivity.
  rewrite (IH buf' (addresses ++ new)), (IH buf' new).
  destruct (parse_loop fuel buf' []) as [rest | e |]; [| reflexivity | reflexivity].
  rewrite app_assoc. reflexivity.
Qed.

(** One pass of the loop on a field that starts with byte [b], then the
    field's remaining passes. *)
Lemma parse_step b buf :
  parse (b :: buf)
  = match parse_record (b :: buf) [] with
    | Return (NodeInfoInDB.Next buf' new) =>
        match parse buf' with
        | Return rest => Return (new ++ rest)
        | r => r
        end
    | Return NodeInfoInDB.Break => Return []
    | Raise e => Raise e
    | OutOfFuel => OutOfFuel
    end.
Proof.
  unfold NodeInfoInDB.parse_addresses_field. cbn [length NodeInfoInDB.parse_loop].
  destruct (parse_record (b :: buf) []) as [[buf' new |] | e |] eqn:Hrec;
    unfold mbind, result_bind; try reflexivity.
  apply parse_record_consumes in Hrec. cbn [length] in Hrec.
  rewrite (parse_loop_fuel is_ip_address (length buf) (length buf') buf' new) by lia.
  apply parse_loop_accumulates.
Qed.

(** Padding is skipped, and an unknown address type ends the decoding:
    what follows it is lost. *)
Theorem parse_addresses_field_padding_and_unknown_type t rest :
  parse (byte_of 0 :: rest) = parse rest
  /\ (4 < ord_byte t -> parse (t :: rest) = Return []).
Proof.
  split.
  - rewrite parse_step. open_record (byte_of 0) rest.
    change (ord_byte (byte_of 0) =? 0) with true. cbn iota.
    destruct (parse rest); reflexivity.
  - intros Ht. rewrite parse_step. open_record t rest.
    repeat match goal with
           | |- context [if ?c =? ?n then _ else _] =>
               destruct (Z.eqb_spec c n); [lia |]
           end.
    reflexivity.
Qed.

(** A field that starts with a complete IPv4 record decodes to the
    record's entry followed by what the rest of the field decodes to; the
    record is left out when its port is 0 or its host text is refused. *)
Theorem parse_addresses_field_ipv4_record a b c d p1 p2 rest :
  let host := ipv4_host a b c d in
  let port := int_from_bytes [p1; p2] in
  parse (byte_of 1 :: a :: b :: c :: d :: p1 :: p2 :: rest)
  = if is_ip_address host && negb (port =? 0)
    then prepend (host, port) (parse rest)
    else parse rest.
Proof.
  cbv zeta. rewrite parse_step. open_record (byte_of 1) (a :: b :: c :: d :: p1 :: p2 :: rest).
  change (ord_byte (byte_of 1) =? 0) with false.
  change (ord_byte (byte_of 1) =? 1) with true. cbn iota.
  change (take 4 (a :: b :: c :: d :: p1 :: p2 :: rest)) with [a; b; c; d].
  change (drop 4 (a :: b :: c :: d :: p1 :: p2 :: rest)) with (drop 0 (p1 :: p2 :: rest)).
  rewrite drop_0.
  change (take 2 (p1 :: p2 :: rest)) with [p1; p2].
  change (drop 2 (p1 :: p2 :: rest)) with (drop 0 rest). rewrite drop_0.
  fold (ipv4_host a b c d).
  destruct (is_ip_address (ipv4_host a b c d) && negb (int_from_bytes [p1; p2] =? 0)).
  - destruct (parse rest); reflexivity.
  - destruct (parse rest); reflexivity.
Qed.

(** A field that starts with a complete onion record (type 3 with ten
    address bytes, type 4 with thirty-five) decodes to the record's entry,
    whatever its port, followed by what the rest of the field decodes
    to. *)
Theorem parse_addresses_field_onion_record t data p1 p2 rest :
  (t = byte_of 3 /\ length data = 10%nat) \/ (t = byte_of 4 /\ length data = 35%nat) ->
  parse (t :: data ++ p1 :: p2 :: rest)
  = prepend (onion_host data, int_from_bytes [p1; p2]) (parse rest).
Proof.
  intros Hrec. rewrite parse_step. open_record t (data ++ p1 :: p2 :: rest).
  destruct Hrec as [[-> Hlen] | [-> Hlen]].
  - change (ord_byte (byte_of 3) =? 0) with false.
    change (ord_byte (byte_of 3) =? 1) with false.
    change (ord_byte (byte_of 3) =? 2) with false.
    change (ord_byte (byte_of 3) =? 3) with true. cbn iota.
    rewrite <- Hlen, take_app_length, drop_app_length.
    change (take 2 (p1 :: p2 :: rest)) with [p1; p2].
    change (drop 2 (p1 :: p2 :: rest)) with (drop 0 rest). rewrite drop_0.
    fold (onion_host data). destruct (parse rest); reflexivity.
  - change (ord_byte (byte_of 4) =? 0) with false.
    change (ord_byte (byte_of 4) =? 1) with false.
    change (ord_byte (byte_of 4) =? 2) with false.
    change (ord_byte (byte_of 4) =? 3) with false.
    change (ord_byte (byte_of 4) =? 4) with true. cbn iota.
    rewrite <- Hlen, take_app_length, drop_app_length.
    change (take 2 (p1 :: p2 :: rest)) with [p1; p2].
    change (drop 2 (p1 :: p2 :: rest)) with (drop 0 rest). rewrite drop_0.
    fold (onion_host data). destruct (parse rest); reflexivity.
Qed.

End ParseRecordsFacts.

(** ** The properties above, at concrete inputs *)

Lemma find_path_for_payment_on_source_store_witness :
  (LNPathFinder.find_path_for_payment 3 S1.A S1.B S1.invoice_amount_msat []
     {| LNPathFinder.channel_db := LNPathFinder.of_ChannelDB S1.db;
        LNPathFinder.blacklist := {[ S1.scid 9 ]} |}).1
  = Raise (AttributeError "get_channels_for_node").
Proof.
  apply (find_path_for_payment_on_source_store S1.db {[ S1.scid 9 ]} 2 S1.A S1.B
           S1.invoice_amount_msat []).
  discriminate.
Defined.


Lemma one_peer_one_address_per_node : one_address_per_node Examples.one_peer.
Proof.
  intros key1 key2 [date1 H1] [date2 H2] _. unfold Examples.one_peer in H1, H2.
  cbn [ChannelDB.address] in H1, H2.
  apply lookup_singleton_Some in H1 as [<- _].
  apply lookup_singleton_Some in H2 as [<- _]. reflexivity.
Defined.

Lemma one_peer_addresses_have_nodes : addresses_have_nodes Examples.one_peer.
Proof.
  intros key [date H]. unfold Examples.one_peer in *.
  cbn [ChannelDB.address ChannelDB.node_info] in *.
  apply lookup_singleton_Some in H as [<- _]. cbn [fst]. rewrite lookup_singleton_eq. eauto.
Defined.

Lemma one_peer_other_nodes node_id :
  node_id <> LNPeerAddr.pubkey (Fixtures.peer 1).2 ->
  length node_id = 2%nat ->
  forall key, is_Some (ChannelDB.address Examples.one_peer !! key) -> key.1.1 <> hex node_id.
Proof.
  intros Hne Hlen key [date H]. unfold Examples.one_peer in H. cbn [ChannelDB.address] in H.
  apply lookup_singleton_Some in H as [<- _]. cbn [fst]. intros Heq. apply Hne.
  pose proof (bfh_hex node_id) as Hback. rewrite <- Heq in Hback.
  rewrite bfh_hex in Hback. injection Hback as <-. reflexivity.
Defined.

Lemma add_recent_peer_keeps_one_address_per_node_witness :
  (ChannelDB.add_recent_peer 7 Examples.one_peer Examples.moved_peer).1 = Return tt
  /\ one_address_per_node
       (ChannelDB.add_recent_peer 7 Examples.one_peer Examples.moved_peer).2.
Proof.
  apply (add_recent_peer_keeps_one_address_per_node 7 Examples.one_peer Examples.moved_peer).
  exact one_peer_one_address_per_node.
Defined.

Lemma get_last_good_address_after_add_recent_peer_witness :
  ChannelDB_get_last_good_address
    (ChannelDB.add_recent_peer 2 Examples.one_peer (Fixtures.peer 2).2).2
    (LNPeerAddr.pubkey (Fixtures.peer 2).2)
  = Return (Some (Fixtures.peer 2).2).
Proof.
  apply (get_last_good_address_after_add_recent_peer 2 Examples.one_peer (Fixtures.peer 2).2).
  apply one_peer_other_nodes; [discriminate | reflexivity].
Defined.

Lemma add_recent_peer_keeps_first_address_witness :
  ChannelDB.address (ChannelDB.add_recent_peer 7 Examples.one_peer Examples.moved_peer).2
  = <[(hex (LNPeerAddr.pubkey Examples.moved_peer), "10.0.0.1"%string, 9735) := 7]>
      (ChannelDB.address Examples.one_peer)
  /\ ChannelDB_get_last_good_address
       (ChannelDB.add_recent_peer 7 Examples.one_peer Examples.moved_peer).2
       (LNPeerAddr.pubkey Examples.moved_peer)
     = Return (Some (LNPeerAddr.mk "10.0.0.1" 9735 (LNPeerAddr.pubkey Examples.moved_peer))).
Proof.
  apply (add_recent_peer_keeps_first_address 7 Examples.one_peer Examples.moved_peer
           "10.0.0.1" 9735 1).
  - exact one_peer_one_address_per_node.
  - vm_compute. reflexivity.
Defined.

Lemma get_last_good_address_unknown_witness :
  ChannelDB_get_last_good_address Examples.one_peer (LNPeerAddr.pubkey (Fixtures.peer 2).2)
  = Return None.
Proof.
  apply (get_last_good_address_unknown Examples.one_peer
           (LNPeerAddr.pubkey (Fixtures.peer 2).2)).
  apply one_peer_other_nodes; [discriminate | reflexivity].
Defined.

Lemma add_recent_peer_keeps_addresses_with_nodes_witness :
  addresses_have_nodes (ChannelDB.add_recent_peer 2 Examples.one_peer (Fixtures.peer 2).2).2
  /\ is_Some (ChannelDB_nodes_get
                (ChannelDB.add_recent_peer 2 Examples.one_peer (Fixtures.peer 2).2).2
                (LNPeerAddr.pubkey (Fixtures.peer 2).2)).
Proof.
  apply (add_recent_peer_keeps_addresses_with_nodes 2 Examples.one_peer (Fixtures.peer 2).2).
  - exact one_peer_one_address_per_node.
  - exact one_peer_addresses_have_nodes.
Defined.

Lemma create_route_from_path_needs_policies_witness :
  match create_route_from_path
          (ChannelDB.get_routing_policy_for_channel (fun _ => 3600)
             Fixtures.with_private_update)
          (Some [(S1.X, [])]) S1.A with
  | Return _ => False
  | _ => True
  end.
Proof.
  apply (create_route_from_path_needs_policies
           (ChannelDB.get_routing_policy_for_channel (fun _ => 3600)
              Fixtures.with_private_update)
           [(S1.X, [])] S1.A 0 S1.A S1.X []);
    reflexivity.
Defined.

Lemma fee_for_edge_monotone_witness :
  RouteEdge.fee_for_edge Examples.paid_edge 1000000
  <= RouteEdge.fee_for_edge Examples.paid_edge 2000000
  /\ (0 <= 1000000 ->
      RouteEdge.fee_base_msat Examples.paid_edge
      <= RouteEdge.fee_for_edge Examples.paid_edge 1000000).
Proof.
  apply (fee_for_edge_monotone Examples.paid_edge 1000000 2000000); vm_compute; discriminate.
Defined.

Lemma is_route_sane_to_use_accepted_witness :
  let paid_edges := rev (drop 1 Examples.route) in
  let total_fee := compounded paid_edges S1.invoice_amount_msat - S1.invoice_amount_msat in
  Z.of_nat (length Examples.route) <= 20
  /\ (forall i e, paid_edges !! i = Some e ->
        RouteEdge.is_sane_to_use e (compounded (take i paid_edges) S1.invoice_amount_msat)
        = true)
  /\ 9 + foldr Z.add 0 (map RouteEdge.cltv_expiry_delta paid_edges) <= 60 * 144
  /\ (total_fee <= 50000
      \/ (total_fee <= S1.invoice_amount_msat
          /\ total_fee <= 5000000
          /\ (S1.invoice_amount_msat > 1000000 -> 10 * total_fee <= S1.invoice_amount_msat))).
Proof.
  apply (is_route_sane_to_use_accepted 20 Examples.route S1.invoice_amount_msat 9).
  vm_compute. reflexivity.
Defined.

Lemma validate_features_known_set_monotone_witness :
  Features.validate_features {[ 1; 4; 16 ]} 5 = Return tt.
Proof.
  apply (validate_features_known_set_monotone {[ 1; 4 ]} {[ 1; 4; 16 ]} 5).
  - apply union_subseteq_l.
  - vm_compute. reflexivity.
Defined.

Lemma parse_addresses_field_onion_record_witness :
  NodeInfoInDB.parse_addresses_field (fun _ => true)
    (byte_of 3 :: replicate 10 (byte_of 7) ++ byte_of 0 :: byte_of 0 :: [byte_of 0])
  = prepend (onion_host (replicate 10 (byte_of 7)), int_from_bytes [byte_of 0; byte_of 0])
      (NodeInfoInDB.parse_addresses_field (fun _ => true) [byte_of 0]).
Proof.
  apply (parse_addresses_field_onion_record (fun _ => true) (byte_of 3)
           (replicate 10 (byte_of 7)) (byte_of 0) (byte_of 0) [byte_of 0]).
  left. split; reflexivity.
Defined.
